(** * The aim trainer's session state machine (src/app/src/App.tsx)

    The component [App] keeps its game state in React state cells and refs
    and changes it from click handlers and timer callbacks.  The embedding
    below is one record [App] holding every cell, one function per handler
    or callback, and a function [commit] for what React's effects do once
    a handler's updates are rendered.

    Numbers.  JavaScript numbers are IEEE binary64.  The counters of the
    game (score, hits, misses, combo, timeLeft, ids, timestamps) only ever
    hold integers, on which binary64 arithmetic is exact below 2^53, so
    they are [Z].  The one expression that leaves the integers is the
    accuracy percentage [Math.round((hits / total) * 100)]; it is evaluated
    here on Rocq's primitive binary64 floats, operation by operation as the
    source does.  Positions and sizes of targets are binary64 too. *)

From Stdlib Require Import ZArith List Bool Lia Sorted.
From Stdlib Require Import PrimFloat SpecFloat FloatOps Uint63.
Import ListNotations.
Local Open Scope Z_scope.

Notation "s |> f" := (f s) (at level 45, left associativity, only parsing).

(** ** JavaScript primitives used by the component *)

Module JS.

(** An integer counter read as a JavaScript number (exact for
    [0 <= z < 2^53], the range in which the counters are integers in
    JavaScript too). *)
Definition Number (z : Z) : float := PrimFloat.of_uint63 (Uint63.of_Z z).

(** [Math.round]: the integer nearest to [x], a tie going up (toward
    +infinity).  The value of a finite float is [m * 2^e]; the result is
    [floor (x + 1/2)] computed on that exact value.  The source only
    rounds finite values (a quotient of positive counters times 100);
    NaN and the infinities, which [Math.round] hands back unchanged, have
    no integer to return and are mapped to 0. *)
Definition Math_round (x : float) : Z :=
  match Prim2SF x with
  | S754_finite sign m e =>
      let n := if sign then Z.neg m else Z.pos m in
      if 0 <=? e then n * 2 ^ e
      else (2 * n + 2 ^ (- e)) / 2 ^ (1 - e)
  | _ => 0
  end.

(** [Math.max] on two integers. *)
Definition Math_max (a b : Z) : Z := if b >? a then b else a.

End JS.

Arguments JS.Number : simpl never.
Arguments JS.Math_round : simpl never.

(** ** Data model *)

(** [interface Target] *)
Record Target := mkTarget {
  id : Z;
  x : float;
  y : float;
  size : float;
  createdAt : Z
}.

(** [interface GameStats] *)
Record GameStats := mkStats {
  score : Z;
  hits : Z;
  misses : Z;
  accuracy : Z
}.

(** The string union ['menu' | 'playing' | 'ended']. *)
Inductive GameState := menu | playing | ended.

Definition GameState_eqb (a b : GameState) : bool :=
  match a, b with
  | menu, menu | playing, playing | ended, ended => true
  | _, _ => false
  end.

(** Every cell of the component.  The first six are [useState] cells,
    [targetIdRef] is the ref of that name.  The last four are the timers
    the component owns: [clock] is the interval kept in [timerRef],
    [spawner] the one kept in [spawnRef], [watcher] the interval [cleanup]
    of the expiry effect, each [Some period] while it is live and [None]
    once cleared; [pendingSpawns] lists, by their delays, the
    [setTimeout(spawnTarget, delay)] callbacks of the initial-spawn effect
    that have not fired yet.  [mousePos] only moves the crosshair and is
    left out. *)
Record App := mkApp {
  gameState : GameState;
  targets : list Target;
  stats : GameStats;
  timeLeft : Z;
  combo : Z;
  maxCombo : Z;
  targetIdRef : Z;
  clock : option Z;
  spawner : option Z;
  watcher : option Z;
  pendingSpawns : list Z
}.

(** The setters of the cells. *)
Definition setGameState (v : GameState) (s : App) : App :=
  mkApp v (targets s) (stats s) (timeLeft s) (combo s) (maxCombo s)
        (targetIdRef s) (clock s) (spawner s) (watcher s) (pendingSpawns s).
Definition setTargets (f : list Target -> list Target) (s : App) : App :=
  mkApp (gameState s) (f (targets s)) (stats s) (timeLeft s) (combo s)
        (maxCombo s) (targetIdRef s) (clock s) (spawner s) (watcher s)
        (pendingSpawns s).
Definition setStats (f : GameStats -> GameStats) (s : App) : App :=
  mkApp (gameState s) (targets s) (f (stats s)) (timeLeft s) (combo s)
        (maxCombo s) (targetIdRef s) (clock s) (spawner s) (watcher s)
        (pendingSpawns s).
Definition setTimeLeft (v : Z) (s : App) : App :=
  mkApp (gameState s) (targets s) (stats s) v (combo s) (maxCombo s)
        (targetIdRef s) (clock s) (spawner s) (watcher s) (pendingSpawns s).
Definition setCombo (v : Z) (s : App) : App :=
  mkApp (gameState s) (targets s) (stats s) (timeLeft s) v (maxCombo s)
        (targetIdRef s) (clock s) (spawner s) (watcher s) (pendingSpawns s).
Definition setMaxCombo (v : Z) (s : App) : App :=
  mkApp (gameState s) (targets s) (stats s) (timeLeft s) (combo s) v
        (targetIdRef s) (clock s) (spawner s) (watcher s) (pendingSpawns s).
Definition setTargetIdRef (v : Z) (s : App) : App :=
  mkApp (gameState s) (targets s) (stats s) (timeLeft s) (combo s)
        (maxCombo s) v (clock s) (spawner s) (watcher s) (pendingSpawns s).
Definition setClock (v : option Z) (s : App) : App :=
  mkApp (gameState s) (targets s) (stats s) (timeLeft s) (combo s)
        (maxCombo s) (targetIdRef s) v (spawner s) (watcher s)
        (pendingSpawns s).
Definition setSpawner (v : option Z) (s : App) : App :=
  mkApp (gameState s) (targets s) (stats s) (timeLeft s) (combo s)
        (maxCombo s) (targetIdRef s) (clock s) v (watcher s)
        (pendingSpawns s).
Definition setWatcher (v : option Z) (s : App) : App :=
  mkApp (gameState s) (targets s) (stats s) (timeLeft s) (combo s)
        (maxCombo s) (targetIdRef s) (clock s) (spawner s) v
        (pendingSpawns s).
Definition setPendingSpawns (v : list Z) (s : App) : App :=
  mkApp (gameState s) (targets s) (stats s) (timeLeft s) (combo s)
        (maxCombo s) (targetIdRef s) (clock s) (spawner s) (watcher s) v.

(** The component as first mounted. *)
Definition mount : App :=
  mkApp menu [] (mkStats 0 0 0 0) 60 0 0 0 None None None [].

(** ** Handlers and timer callbacks *)

(** What [spawnTarget] reads from outside: the play area's rectangle
    ([None] while [gameAreaRef.current] is null), the three results of
    [Math.random()] in call order, and [Date.now()]. *)
Record Rect := mkRect { width : float; height : float }.
Record Draw := mkDraw {
  rect : option Rect;
  rnd_size : float;
  rnd_x : float;
  rnd_y : float;
  now : Z
}.

Definition spawnTarget (d : Draw) (s : App) : App :=
  match rect d with
  | Some r =>
      let size := (rnd_size d * 30 + 30)%float in
      let margin := 100%float in
      let x := (rnd_x d * (width r - size - margin * 2) + margin)%float in
      let y := (rnd_y d * (height r - size - margin * 2) + margin)%float in
      let newTarget := mkTarget (targetIdRef s) x y size (now d) in
      s |> setTargetIdRef (targetIdRef s + 1)
        |> setTargets (fun prev => prev ++ [newTarget])
  | None => s
  end.

(** [hitTarget].  The callback is rebuilt by [useCallback] whenever [combo]
    or [maxCombo] changes; [combo_r] and [maxCombo_r] are the values the
    callback in use has captured, [prev] in the updaters is the cell. *)
Definition hitTarget (combo_r maxCombo_r : Z) (targetId : Z) (s : App) : App :=
  s |> setTargets (fun prev => filter (fun t => negb (id t =? targetId)) prev)
    |> setStats (fun prev =>
         let newHits := hits prev + 1 in
         let total := newHits + misses prev in
         let accuracy :=
           if total >? 0
           then JS.Math_round (JS.Number newHits / JS.Number total
                               * JS.Number 100)%float
           else 0 in
         mkStats (score prev + 100 + combo_r * 10) newHits (misses prev)
                 accuracy)
    |> (fun s' =>
         let newCombo := combo s' + 1 in
         (if newCombo >? maxCombo_r then setMaxCombo newCombo s' else s')
           |> setCombo newCombo).

(** [handleMiss] *)
Definition handleMiss (s : App) : App :=
  s |> setStats (fun prev =>
         let newMisses := misses prev + 1 in
         let total := hits prev + newMisses in
         let accuracy :=
           if total >? 0
           then JS.Math_round (JS.Number (hits prev) / JS.Number total
                               * JS.Number 100)%float
           else 0 in
         mkStats (score prev) (hits prev) newMisses accuracy)
    |> setCombo 0.

(** [startGame] *)
Definition startGame (s : App) : App :=
  s |> setGameState playing
    |> setStats (fun _ => mkStats 0 0 0 0)
    |> setTimeLeft 60
    |> setCombo 0
    |> setMaxCombo 0
    |> setTargets (fun _ => [])
    |> setTargetIdRef 0.

(** [endGame] *)
Definition endGame (s : App) : App :=
  s |> setGameState ended
    |> setTargets (fun _ => [])
    |> setClock None
    |> setSpawner None.

(** The callback of the session clock's interval. *)
Definition clockTick (s : App) : App :=
  if timeLeft s <=? 1
  then s |> endGame |> setTimeLeft 0
  else s |> setTimeLeft (timeLeft s - 1).

(** The period the spawn interval is armed with. *)
Definition spawnInterval (timeLeft : Z) : Z :=
  JS.Math_max 400 (1000 - (60 - timeLeft) * 10).

(** The callback of the expiry effect's interval; [now] is [Date.now()]. *)
Definition expire (now : Z) (s : App) : App :=
  s |> setTargets (fun prev => filter (fun t => now - createdAt t <? 3000) prev).

(** The "Main Menu" button. *)
Definition toMenu (s : App) : App := s |> setGameState menu.

(** ** Effects

    After a handler's updates are rendered React re-runs each effect whose
    dependencies changed: first the cleanup the effect returned last time,
    then its body.  [spawnTarget] and [endGame] are [useCallback]s with no
    dependencies and never change, so the dependencies that matter are
    [gameState] and [timeLeft].  [prev] is the state before the handler,
    [next] the state it produced. *)

(** The effect arming the session clock and the spawn interval,
    dependencies [gameState, spawnTarget, endGame, timeLeft]. *)
Definition clockEffect (prev next : App) : App :=
  if GameState_eqb (gameState prev) (gameState next)
     && (timeLeft prev =? timeLeft next)
  then next
  else
    let cleaned :=
      if GameState_eqb (gameState prev) playing
      then next |> setClock None |> setSpawner None
      else next in
    if GameState_eqb (gameState next) playing
    then cleaned |> setClock (Some 1000)
                 |> setSpawner (Some (spawnInterval (timeLeft next)))
    else cleaned.

(** The effect arming the expiry watcher, dependency [gameState]. *)
Definition expiryEffect (prev next : App) : App :=
  if GameState_eqb (gameState prev) (gameState next)
  then next
  else
    let cleaned :=
      if GameState_eqb (gameState prev) playing
      then next |> setWatcher None
      else next in
    if GameState_eqb (gameState next) playing
    then cleaned |> setWatcher (Some 100)
    else cleaned.

(** The effect scheduling the opening targets, dependencies
    [gameState, spawnTarget]; it returns no cleanup. *)
Definition initialSpawnEffect (prev next : App) : App :=
  if GameState_eqb (gameState prev) (gameState next)
  then next
  else
    if GameState_eqb (gameState next) playing
    then fold_left
           (fun s i => s |> setPendingSpawns (pendingSpawns s ++ [i * 300]))
           [0; 1; 2] next
    else next.

(** The three effects in the order the component declares them. *)
Definition commit (prev next : App) : App :=
  next |> clockEffect prev |> expiryEffect prev |> initialSpawnEffect prev.

(** ** Events

    What can happen to a mounted component: a click on one of its buttons,
    on a target or on the empty play area, or one of its timers firing.
    Each event runs its handler to completion and is rendered before the
    next one is taken.  React renders a click before it returns to the
    browser, so the [hitTarget] in use at a click has captured the
    [combo] and [maxCombo] of the state it is clicked in.  Timer callbacks
    may share one rendering; their updates are functions of the previous
    value (or constants) applied in the order they were queued, which is
    what running them one after the other gives.  When a timer fires is
    not modelled: a live timer may fire at any point. *)
Inductive Event :=
| StartClick                         (* START TRAINING / Play Again *)
| EndClick                           (* End *)
| MenuClick                          (* Main Menu *)
| TargetClick (targetId : Z)         (* a target's onClick *)
| AreaClick                          (* the play area's onClick *)
| ClockFire                          (* the interval in timerRef *)
| SpawnFire (d : Draw)               (* the interval in spawnRef *)
| ExpiryFire (now : Z)               (* the interval of the expiry effect *)
| TimeoutFire (k : nat) (d : Draw).  (* the k-th pending setTimeout *)

Fixpoint remove_nth {A} (k : nat) (l : list A) : list A :=
  match l, k with
  | [], _ => []
  | _ :: l', O => l'
  | a :: l', S k' => a :: remove_nth k' l'
  end.

Definition handler (e : Event) (s : App) : App :=
  match e with
  | StartClick => startGame s
  | EndClick => endGame s
  | MenuClick => toMenu s
  | TargetClick targetId => hitTarget (combo s) (maxCombo s) targetId s
  | AreaClick => handleMiss s
  | ClockFire => clockTick s
  | SpawnFire d => spawnTarget d s
  | ExpiryFire now => expire now s
  | TimeoutFire k d =>
      s |> setPendingSpawns (remove_nth k (pendingSpawns s)) |> spawnTarget d
  end.

Definition step (e : Event) (s : App) : App := commit s (handler e s).

Definition is_Some {A} (o : option A) : bool :=
  match o with Some _ => true | None => false end.

(** When an event can occur: a button or a target can be clicked while it
    is rendered, the play area's [onClick] is [handleMiss] only while
    playing, a timer can fire while it is live. *)
Definition enabled (e : Event) (s : App) : bool :=
  match e with
  | StartClick =>
      GameState_eqb (gameState s) menu || GameState_eqb (gameState s) ended
  | EndClick => GameState_eqb (gameState s) playing
  | MenuClick => GameState_eqb (gameState s) ended
  | TargetClick targetId =>
      GameState_eqb (gameState s) playing
      && existsb (fun t => id t =? targetId) (targets s)
  | AreaClick => GameState_eqb (gameState s) playing
  | ClockFire => is_Some (clock s)
  | SpawnFire _ => is_Some (spawner s)
  | ExpiryFire _ => is_Some (watcher s)
  | TimeoutFire k _ => (k <? length (pendingSpawns s))%nat
  end.

(** Running a list of events from a state; [None] when one of them cannot
    occur where it stands. *)
Fixpoint run (es : list Event) (s : App) : option App :=
  match es with
  | [] => Some s
  | e :: es' => if enabled e s then run es' (step e s) else None
  end.

(** The states the component can be in. *)
Inductive reachable : App -> Prop :=
| reachable_mount : reachable mount
| reachable_step e s :
    reachable s -> enabled e s = true -> reachable (step e s).

(** ** The accuracy as a function of the counters *)

(** The percentage [hitTarget] (line 73) and [handleMiss] (line 93) store,
    as a function of the [hits] and [misses] they store with it:
    [total > 0 ? Math.round((hits / total) * 100) : 0], the quotient and
    the product in binary64. *)
Definition js_accuracy (hits misses : Z) : Z :=
  let total := hits + misses in
  if total >? 0
  then JS.Math_round (JS.Number hits / JS.Number total * JS.Number 100)%float
  else 0.

(** ** What the specification says, in its own words *)

(** "accuracy: integer percentage = round(hits / (hits+misses) × 100), 0
    when no attempts yet": the quotient and the product are those of the
    rational numbers and the result is the nearest integer, a half going
    up, that is [floor ((200 * hits + total) / (2 * total))]. *)
Definition spec_accuracy (hits misses : Z) : Z :=
  if hits + misses =? 0 then 0
  else (200 * hits + (hits + misses)) / (2 * (hits + misses)).

(** "Period formula: max(400ms, 1000ms − (60 − timeLeft) × 10ms)". *)
Definition spec_period (timeLeft : Z) : Z :=
  Z.max 400 (1000 - (60 - timeLeft) * 10).

(** The state every session starts from: stats zero, [timeLeft] 60,
    [combo] and [maxCombo] 0, no targets, id counter reset. *)
Record Session := mkSession {
  ss_state : GameState;
  ss_targets : list Target;
  ss_stats : GameStats;
  ss_timeLeft : Z;
  ss_combo : Z;
  ss_maxCombo : Z;
  ss_nextId : Z;
  ss_clock : option Z;
  ss_spawner : option Z;
  ss_watcher : option Z
}.

Definition session_of (s : App) : Session :=
  mkSession (gameState s) (targets s) (stats s) (timeLeft s) (combo s)
            (maxCombo s) (targetIdRef s) (clock s) (spawner s) (watcher s).

Definition fresh_session : Session :=
  mkSession playing [] (mkStats 0 0 0 0) 60 0 0 0
            (Some 1000) (Some 1000) (Some 100).

(** ** Traces *)

(** The state after a list of events, and the states passed on the way
    (the starting state first). *)
Definition final (es : list Event) (s : App) : App :=
  fold_left (fun s e => step e s) es s.

Fixpoint history (es : list Event) (s : App) : list App :=
  s :: match es with
       | [] => []
       | e :: es' => history es' (step e s)
       end.

Definition is_start (e : Event) : bool :=
  match e with StartClick => true | _ => false end.

(** [l'] keeps some of the elements of [l], in the order of [l]. *)
Inductive subseq {A} : list A -> list A -> Prop :=
| subseq_nil : subseq [] []
| subseq_keep a l' l : subseq l' l -> subseq (a :: l') (a :: l)
| subseq_drop a l' l : subseq l' l -> subseq l' (a :: l).

(** ** Invariants *)

(** The three intervals are live exactly while playing, with the periods
    the effects arm them with. *)
Definition timers_ok (s : App) : Prop :=
  clock s = (if GameState_eqb (gameState s) playing
             then Some 1000 else None) /\
  spawner s = (if GameState_eqb (gameState s) playing
               then Some (spawnInterval (timeLeft s)) else None) /\
  watcher s = (if GameState_eqb (gameState s) playing
               then Some 100 else None).

(** What a handler may have done to the intervals before the effects run:
    nothing, or (in [endGame]) cleared the two kept in refs on leaving
    [playing]. *)
Definition timers_handled (prev next : App) : Prop :=
  watcher next = watcher prev /\
  ((clock next = clock prev /\ spawner next = spawner prev) \/
   (gameState next = ended /\ clock next = None /\ spawner next = None)).

(** Every id in the collection was handed out by the counter, and no two
    targets share one. *)
Definition ids_ok (next : Z) (l : list Target) : Prop :=
  (forall t, In t l -> id t < next) /\ NoDup (map id l).

(** [m] is the largest element of [l]. *)
Definition is_max (m : Z) (l : list Z) : Prop :=
  In m l /\ Forall (fun c => c <= m) l.

(** Whether the percentage the component computes is the specification's,
    or the ratio of hits to attempts is [23 / 40]. *)
Definition agree (hits misses : Z) : bool :=
  (js_accuracy hits misses =? spec_accuracy hits misses)
  || (40 * hits =? 23 * (hits + misses)).

(** The same with the exception pinned down: at a ratio of [23 / 40] the
    component computes 57 where the specification has 58, and everywhere
    else the two are the same number. *)
Definition pinned (hits misses : Z) : bool :=
  if 40 * hits =? 23 * (hits + misses)
  then (hits =? 0)
       || ((js_accuracy hits misses =? 57) && (spec_accuracy hits misses =? 58))
  else js_accuracy hits misses =? spec_accuracy hits misses.

(** ** Sample sessions *)

(** A sample session used to instantiate the theorems below: start, the
    first opening target appears and is hit, a miss, a second target from
    the spawn interval, a second hit. *)
Definition area : Rect := mkRect 1920 1080.
Definition draw_at (now : Z) : Draw := mkDraw (Some area) 0.5 0.25 0.75 now.
Definition sample : list Event :=
  [StartClick; TimeoutFire 0 (draw_at 5); TargetClick 0; AreaClick;
   SpawnFire (draw_at 700); TargetClick 1].

(** The first opening target of the sample session. *)
Definition first_target : Target := mkTarget 0 518.75 726.25 45 5.

(** A finished session: one target hit, then End. *)
Definition finished : list Event :=
  [StartClick; TimeoutFire 0 (draw_at 5); TargetClick 0; EndClick].

(** A session abandoned 100 ms or so after its start: the first opening
    timeout (delay 0) has fired, the End button is clicked, and then the
    second opening timeout (delay 300) fires. *)
Definition abandoned : list Event :=
  [StartClick; TimeoutFire 0 (draw_at 5); EndClick;
   TimeoutFire 0 (draw_at 310)].

(** A session with 23 hits and 17 misses: 23 times a target is spawned by
    the interval and hit, then the empty play area is clicked 17 times. *)
Definition twenty_three_of_forty : list Event :=
  StartClick
  :: flat_map (fun i => [SpawnFire (draw_at (1000 * i)); TargetClick i])
              (map Z.of_nat (seq 0 23))
  ++ repeat AreaClick 17.

(** ** Counting events and sessions *)

Definition is_hit (e : Event) : bool :=
  match e with TargetClick _ => true | _ => false end.
Definition is_miss (e : Event) : bool :=
  match e with AreaClick => true | _ => false end.
Definition is_tick (e : Event) : bool :=
  match e with ClockFire => true | _ => false end.
Definition is_timeout (e : Event) : bool :=
  match e with TimeoutFire _ _ => true | _ => false end.

(** How many events of a list satisfy [p]. *)
Definition count (p : Event -> bool) (es : list Event) : Z :=
  Z.of_nat (length (filter p es)).

(** The events whose handlers touch neither [gameState] nor [timeLeft],
    so that rendering them re-runs no effect. *)
Definition quiet (e : Event) : bool :=
  match e with
  | TargetClick _ | AreaClick | SpawnFire _ | ExpiryFire _
  | TimeoutFire _ _ => true
  | _ => false
  end.

(** The events of a session in progress: anything but the three buttons
    that start, end or leave a session. *)
Definition in_session (e : Event) : bool :=
  match e with
  | StartClick | EndClick | MenuClick => false
  | _ => true
  end.

(** The arrows of the screen flow: menu to playing, playing to ended,
    ended to menu or playing; staying put is allowed. *)
Definition legal (a b : GameState) : bool :=
  match a, b with
  | menu, playing | playing, ended | ended, menu | ended, playing => true
  | _, _ => GameState_eqb a b
  end.

(** Every target that was in the collection at some point of a trace. *)
Definition seen (es : list Event) (s : App) : list Target :=
  flat_map targets (history es s).

(** The ids of the collection go up strictly from front to back and lie
    between 0 and the id counter. *)
Definition ids_sorted (next : Z) (l : list Target) : Prop :=
  StronglySorted Z.lt (map id l) /\ Forall (fun t => 0 <= id t < next) l.

(** What one expects of a percentage: within 0 and 100, 100 exactly for
    hits without a miss, 0 exactly for no hit. *)
Definition sane (hits misses : Z) : bool :=
  let a := js_accuracy hits misses in
  (0 <=? a) && (a <=? 100)
  && Bool.eqb (a =? 100) ((0 <? hits) && (misses =? 0))
  && Bool.eqb (a =? 0) (hits =? 0).

(** The events an expiry tick at [time] can change places with: every
    event of a session in progress, a spawn provided its target is not
    yet three seconds old at [time]. *)
Definition swaps_with_expiry (time : Z) (e : Event) : bool :=
  match e with
  | TargetClick _ | AreaClick | ClockFire | ExpiryFire _ => true
  | SpawnFire d | TimeoutFire _ d => time - now d <? 3000
  | _ => false
  end.

(** A hit does not lower the percentage and a miss does not raise it. *)
Definition steady (hits misses : Z) : bool :=
  (js_accuracy hits misses <=? js_accuracy (hits + 1) misses)
  && (js_accuracy hits (misses + 1) <=? js_accuracy hits misses).

(** * Proofs *)

(** ** Lists *)

Lemma filter_subseq {A} (p : A -> bool) (l : list A) :
  subseq (filter p l) l.
Proof.
  induction l as [|a l IH]; simpl.
  - constructor.
  - destruct (p a); constructor; exact IH.
Qed.

Lemma filter_all {A} (p : A -> bool) (l : list A) :
  (forall a, In a l -> p a = true) -> filter p l = l.
Proof.
  induction l as [|a l IH]; simpl; intros H; [reflexivity|].
  rewrite (H a (or_introl eq_refl)). f_equal. apply IH. auto.
Qed.

(** Filtering a duplicate-free list of ids by one id takes out one
    element and leaves both sides of it as they were. *)
Lemma filter_by_id_split (t : Target) (l : list Target) :
  NoDup (map id l) -> In t l ->
  exists l1 l2,
    l = l1 ++ t :: l2 /\
    filter (fun u => negb (id u =? id t)) l = l1 ++ l2 /\
    (forall u, In u (l1 ++ l2) -> id u <> id t).
Proof.
  induction l as [|a l IH]; simpl; intros ND Hin; [contradiction|].
  inversion ND as [|? ? Hnotin ND']; subst.
  destruct Hin as [->|Hin].
  - exists [], l. rewrite Z.eqb_refl. simpl.
    assert (Hne : forall u, In u l -> id u <> id t).
    { intros u Hu E. apply Hnotin. rewrite <- E. now apply in_map. }
    repeat split; auto.
    apply filter_all. intros u Hu.
    apply negb_true_iff, Z.eqb_neq. auto.
  - destruct (IH ND' Hin) as (l1 & l2 & E1 & E2 & E3).
    assert (Ha : id a <> id t).
    { intros E. apply Hnotin. rewrite E. now apply in_map. }
    exists (a :: l1), l2.
    apply Z.eqb_neq in Ha as Hb. rewrite Hb. simpl.
    repeat split.
    + now rewrite E1.
    + now rewrite E2.
    + intros u [<-|Hu]; auto.
Qed.

(** ** What an event leaves alone *)

(** The effects only touch the timers. *)
Lemma commit_frame prev next :
  gameState (commit prev next) = gameState next /\
  targets (commit prev next) = targets next /\
  stats (commit prev next) = stats next /\
  timeLeft (commit prev next) = timeLeft next /\
  combo (commit prev next) = combo next /\
  maxCombo (commit prev next) = maxCombo next /\
  targetIdRef (commit prev next) = targetIdRef next.
Proof.
  unfold commit, initialSpawnEffect, expiryEffect, clockEffect.
  destruct prev as [g ? ? tl ? ? ? ? ? ? ?], next as [g' ? ? tl' ? ? ? ? ? ? ?].
  simpl. destruct g, g'; destruct (tl =? tl'); simpl; repeat split.
Qed.

Ltac commit_fields :=
  unfold step;
  repeat match goal with
  | |- context [gameState (commit ?p ?n)] =>
      rewrite (proj1 (commit_frame p n))
  | |- context [targets (commit ?p ?n)] =>
      rewrite (proj1 (proj2 (commit_frame p n)))
  | |- context [stats (commit ?p ?n)] =>
      rewrite (proj1 (proj2 (proj2 (commit_frame p n))))
  | |- context [timeLeft (commit ?p ?n)] =>
      rewrite (proj1 (proj2 (proj2 (proj2 (commit_frame p n)))))
  | |- context [combo (commit ?p ?n)] =>
      rewrite (proj1 (proj2 (proj2 (proj2 (proj2 (commit_frame p n))))))
  | |- context [maxCombo (commit ?p ?n)] =>
      rewrite (proj1 (proj2 (proj2 (proj2 (proj2 (proj2 (commit_frame p n)))))))
  | |- context [targetIdRef (commit ?p ?n)] =>
      rewrite (proj2 (proj2 (proj2 (proj2 (proj2 (proj2 (commit_frame p n)))))))
  end.

Lemma spawnTarget_stats d s : stats (spawnTarget d s) = stats s.
Proof. unfold spawnTarget. destruct (rect d); reflexivity. Qed.

Lemma spawnTarget_combo d s :
  combo (spawnTarget d s) = combo s /\ maxCombo (spawnTarget d s) = maxCombo s.
Proof. unfold spawnTarget. destruct (rect d); split; reflexivity. Qed.

Lemma spawnTarget_session d s :
  gameState (spawnTarget d s) = gameState s /\
  timeLeft (spawnTarget d s) = timeLeft s.
Proof. unfold spawnTarget. destruct (rect d); split; reflexivity. Qed.

Lemma spawnTarget_timers d s :
  clock (spawnTarget d s) = clock s /\
  spawner (spawnTarget d s) = spawner s /\
  watcher (spawnTarget d s) = watcher s.
Proof. unfold spawnTarget. destruct (rect d); repeat split; reflexivity. Qed.

Lemma clockTick_stats s : stats (clockTick s) = stats s.
Proof. unfold clockTick. destruct (timeLeft s <=? 1); reflexivity. Qed.

Lemma clockTick_combo s :
  combo (clockTick s) = combo s /\ maxCombo (clockTick s) = maxCombo s.
Proof. unfold clockTick. destruct (timeLeft s <=? 1); split; reflexivity. Qed.

(** The stats after an event, by event. *)
Lemma step_stats e s :
  stats (step e s) =
  match e with
  | StartClick => mkStats 0 0 0 0
  | TargetClick _ =>
      mkStats (score (stats s) + 100 + combo s * 10)
              (hits (stats s) + 1) (misses (stats s))
              (if hits (stats s) + 1 + misses (stats s) >? 0
               then JS.Math_round
                      (JS.Number (hits (stats s) + 1)
                       / JS.Number (hits (stats s) + 1 + misses (stats s))
                       * JS.Number 100)%float
               else 0)
  | AreaClick =>
      mkStats (score (stats s)) (hits (stats s)) (misses (stats s) + 1)
              (if hits (stats s) + (misses (stats s) + 1) >? 0
               then JS.Math_round
                      (JS.Number (hits (stats s))
                       / JS.Number (hits (stats s) + (misses (stats s) + 1))
                       * JS.Number 100)%float
               else 0)
  | _ => stats s
  end.
Proof.
  commit_fields.
  destruct e; simpl; try reflexivity.
  - unfold hitTarget. simpl.
    destruct (combo s + 1 >? maxCombo s); reflexivity.
  - apply clockTick_stats.
  - apply spawnTarget_stats.
  - rewrite spawnTarget_stats. reflexivity.
Qed.

(** The streak counters after an event, by event. *)
Lemma step_combo e s :
  combo (step e s) =
  match e with
  | StartClick | AreaClick => 0
  | TargetClick _ => combo s + 1
  | _ => combo s
  end.
Proof.
  commit_fields.
  destruct e; simpl; try reflexivity.
  - apply (proj1 (clockTick_combo s)).
  - apply (proj1 (spawnTarget_combo d s)).
  - now rewrite (proj1 (spawnTarget_combo _ _)).
Qed.

Lemma step_maxCombo e s :
  maxCombo (step e s) =
  match e with
  | StartClick => 0
  | TargetClick _ =>
      if combo s + 1 >? maxCombo s then combo s + 1 else maxCombo s
  | _ => maxCombo s
  end.
Proof.
  commit_fields.
  destruct e; simpl; try reflexivity.
  - unfold hitTarget. simpl.
    destruct (combo s + 1 >? maxCombo s); reflexivity.
  - apply (proj2 (clockTick_combo s)).
  - apply (proj2 (spawnTarget_combo d s)).
  - now rewrite (proj2 (spawnTarget_combo _ _)).
Qed.

(** ** Invariants of the reachable states *)

(** The counters never go negative and [accuracy] is in step with them. *)
Lemma stats_invariant s :
  reachable s ->
  0 <= hits (stats s) /\ 0 <= misses (stats s) /\ 0 <= score (stats s) /\
  0 <= combo s /\
  accuracy (stats s) = js_accuracy (hits (stats s)) (misses (stats s)).
Proof.
  induction 1 as [|e s Hr (Hh & Hm & Hs & Hc & Ha) He].
  - simpl. repeat split; try lia.
  - rewrite step_stats, step_combo.
    destruct e; simpl; repeat split; try lia; try assumption.
Qed.

(** [maxCombo] is never behind [combo]. *)
Lemma combo_le_maxCombo s : reachable s -> combo s <= maxCombo s.
Proof.
  induction 1 as [|e s Hr IH He].
  - simpl. lia.
  - rewrite step_combo, step_maxCombo.
    pose proof (stats_invariant s Hr) as (_ & _ & _ & Hc & _).
    destruct e; simpl; try lia.
    destruct (Z.gtb_spec (combo s + 1) (maxCombo s)); lia.
Qed.

(** *** The session clock and the timers *)

Lemma step_gameState e s :
  gameState (step e s) =
  match e with
  | StartClick => playing
  | EndClick => ended
  | MenuClick => menu
  | ClockFire => if timeLeft s <=? 1 then ended else gameState s
  | _ => gameState s
  end.
Proof.
  commit_fields.
  destruct e; simpl; try reflexivity.
  - unfold hitTarget. simpl.
    destruct (combo s + 1 >? maxCombo s); reflexivity.
  - unfold clockTick. destruct (timeLeft s <=? 1); reflexivity.
  - apply (proj1 (spawnTarget_session d s)).
  - now rewrite (proj1 (spawnTarget_session _ _)).
Qed.

Lemma step_timeLeft e s :
  timeLeft (step e s) =
  match e with
  | StartClick => 60
  | ClockFire => if timeLeft s <=? 1 then 0 else timeLeft s - 1
  | _ => timeLeft s
  end.
Proof.
  commit_fields.
  destruct e; simpl; try reflexivity.
  - unfold hitTarget. simpl.
    destruct (combo s + 1 >? maxCombo s); reflexivity.
  - unfold clockTick. destruct (timeLeft s <=? 1); reflexivity.
  - apply (proj2 (spawnTarget_session d s)).
  - now rewrite (proj2 (spawnTarget_session _ _)).
Qed.

(** The clock stays within the session's sixty seconds and has at least
    one second left while playing. *)
Lemma time_invariant s :
  reachable s ->
  0 <= timeLeft s <= 60 /\ (gameState s = playing -> 1 <= timeLeft s).
Proof.
  induction 1 as [|e s Hr [Htl Hp] He].
  - simpl. split; [lia|discriminate].
  - rewrite step_gameState, step_timeLeft.
    destruct e; try (split; [lia|try discriminate; auto]).
    destruct (Z.leb_spec (timeLeft s) 1); split;
      try lia; try discriminate.
Qed.

Lemma commit_timers_ok prev next :
  timers_ok prev -> timers_handled prev next -> timers_ok (commit prev next).
Proof.
  unfold timers_ok, timers_handled, commit, initialSpawnEffect, expiryEffect,
    clockEffect.
  destruct prev as [g ? ? tl ? ? ? ck sp w ?],
           next as [g' ? ? tl' ? ? ? ck' sp' w' ?].
  simpl. intros (-> & -> & ->) (-> & [[-> ->]|(-> & -> & ->)]);
    destruct g; try destruct g'; simpl;
    destruct (Z.eqb_spec tl tl'); subst; simpl; repeat split; reflexivity.
Qed.

Lemma handler_timers e s :
  timers_ok s -> enabled e s = true -> timers_handled s (handler e s).
Proof.
  intros (Hck & Hsp & Hw) He. unfold timers_handled.
  destruct e; simpl.
  - split; [reflexivity|left; split; reflexivity].
  - split; [reflexivity|right; repeat split; reflexivity].
  - split; [reflexivity|left; split; reflexivity].
  - unfold hitTarget. simpl.
    destruct (combo s + 1 >? maxCombo s);
      (split; [reflexivity|left; split; reflexivity]).
  - split; [reflexivity|left; split; reflexivity].
  - unfold clockTick. destruct (timeLeft s <=? 1).
    + split; [reflexivity|right; repeat split; reflexivity].
    + split; [reflexivity|left; split; reflexivity].
  - destruct (spawnTarget_timers d s) as (-> & -> & ->). auto.
  - split; [reflexivity|left; split; reflexivity].
  - destruct (spawnTarget_timers d
                (setPendingSpawns (remove_nth k (pendingSpawns s)) s))
      as (-> & -> & ->). simpl. auto.
Qed.

Lemma timers_invariant s : reachable s -> timers_ok s.
Proof.
  induction 1 as [|e s Hr IH He].
  - repeat split.
  - unfold step. apply commit_timers_ok; [exact IH|].
    now apply handler_timers.
Qed.

(** *** Target ids *)

Lemma ids_ok_nil n : ids_ok n [].
Proof. split; [intros t []|constructor]. Qed.

Lemma NoDup_map_filter (p : Target -> bool) (l : list Target) :
  NoDup (map id l) -> NoDup (map id (filter p l)).
Proof.
  induction l as [|a l IH]; simpl; intros ND; [constructor|].
  inversion ND as [|? ? Hnotin ND']; subst.
  destruct (p a); simpl; auto.
  constructor; auto.
  intros Hin. apply Hnotin.
  apply in_map_iff in Hin as (u & Hu & Hf).
  apply filter_In in Hf as [Hf _].
  rewrite <- Hu. now apply in_map.
Qed.

Lemma ids_ok_filter n p l : ids_ok n l -> ids_ok n (filter p l).
Proof.
  intros [Hlt ND]. split.
  - intros t Ht. apply filter_In in Ht as [Ht _]. auto.
  - now apply NoDup_map_filter.
Qed.

Lemma ids_ok_spawn n l t :
  id t = n -> ids_ok n l -> ids_ok (n + 1) (l ++ [t]).
Proof.
  intros Hid [Hlt ND]. split.
  - intros u Hu. apply in_app_or in Hu as [Hu|[<-|[]]].
    + specialize (Hlt u Hu). lia.
    + lia.
  - rewrite map_app. simpl.
    apply NoDup_app; [exact ND|repeat constructor; intros []|].
    intros i Hi [<-|[]].
    apply in_map_iff in Hi as (u & Hu & Hin).
    specialize (Hlt u Hin). lia.
Qed.

Lemma spawnTarget_ids d s :
  ids_ok (targetIdRef s) (targets s) ->
  ids_ok (targetIdRef (spawnTarget d s)) (targets (spawnTarget d s)).
Proof.
  unfold spawnTarget. destruct (rect d); simpl; auto.
  now apply ids_ok_spawn.
Qed.

Lemma ids_invariant s :
  reachable s -> ids_ok (targetIdRef s) (targets s).
Proof.
  induction 1 as [|e s Hr IH He].
  - apply ids_ok_nil.
  - commit_fields.
    destruct e; simpl; auto using ids_ok_nil.
    + unfold hitTarget. simpl.
      destruct (combo s + 1 >? maxCombo s); simpl; now apply ids_ok_filter.
    + unfold clockTick.
      destruct (timeLeft s <=? 1); simpl; auto using ids_ok_nil.
    + now apply spawnTarget_ids.
    + now apply ids_ok_filter.
    + now apply spawnTarget_ids.
Qed.

(** ** Traces and reachability *)

Lemma run_reachable es : forall s s',
  reachable s -> run es s = Some s' -> reachable s'.
Proof.
  induction es as [|e es IH]; simpl; intros s s' Hr Hrun.
  - now inversion Hrun; subst.
  - destruct (enabled e s) eqn:He; [|discriminate].
    eapply IH; [|exact Hrun]. now constructor.
Qed.

Lemma run_final es : forall s s', run es s = Some s' -> s' = final es s.
Proof.
  induction es as [|e es IH]; simpl; intros s s' Hrun.
  - now inversion Hrun.
  - destruct (enabled e s); [|discriminate]. now apply IH.
Qed.

(** From a run to reachability. *)
Ltac reached Hrun Hr :=
  match type of Hrun with
  | run _ mount = Some ?s =>
      assert (Hr : reachable s)
        by (eapply run_reachable; [apply reachable_mount|exact Hrun])
  end.

(** * The claims *)

Lemma forallb_upto (f : Z -> bool) (n : nat) :
  forallb (fun k => f (Z.of_nat k)) (seq 0 n) = true ->
  forall z, 0 <= z < Z.of_nat n -> f z = true.
Proof.
  intros H z Hz. rewrite forallb_forall in H.
  specialize (H (Z.to_nat z)). rewrite Z2Nat.id in H by lia.
  apply H. apply in_seq. lia.
Qed.

Lemma pinned_upto_100 :
  forallb (fun k => (fun h => forallb (fun k' => pinned h (Z.of_nat k'))
                                      (seq 0 101)) (Z.of_nat k))
          (seq 0 101) = true.
Proof. vm_compute. reflexivity. Qed.

(** Up to 100 hits and 100 misses the component's percentage is the
    specification's, except at a ratio of [23 / 40], where it is 57 and
    the specification's is 58. *)
Lemma js_accuracy_up_to_100 hits misses :
  0 <= hits <= 100 -> 0 <= misses <= 100 ->
  (40 * hits <> 23 * (hits + misses) ->
     js_accuracy hits misses = spec_accuracy hits misses) /\
  (0 < hits -> 40 * hits = 23 * (hits + misses) ->
     js_accuracy hits misses = 57 /\ spec_accuracy hits misses = 58).
Proof.
  intros Hh Hm.
  assert (H : pinned hits misses = true).
  { apply (forallb_upto (pinned hits) 101); [|lia].
    apply (forallb_upto
             (fun h => forallb (fun k' => pinned h (Z.of_nat k')) (seq 0 101))
             101 pinned_upto_100); lia. }
  unfold pinned in H.
  destruct (Z.eqb_spec (40 * hits) (23 * (hits + misses))) as [E|E].
  - split; [intros Hne; contradiction|]. intros Hpos _.
    apply orb_true_iff in H as [H|H].
    + apply Z.eqb_eq in H. lia.
    + apply andb_true_iff in H as [H1 H2].
      apply Z.eqb_eq in H1, H2. now split.
  - split; [intros _; now apply Z.eqb_eq in H|]. intros _ E'. contradiction.
Qed.

(** C1 (amended).  After every hit or miss, and in every state any
    sequence of events leads to, [accuracy] is
    [Math.round((hits / (hits + misses)) * 100)] as JavaScript evaluates
    it, quotient and product in binary64, for the [hits] and [misses] of
    that state, and it is 0 whenever [hits + misses] is 0.  Up to 100 hits
    and 100 misses that is the exactly rounded percentage
    [round(hits / (hits + misses) * 100)] of the specification, except
    when hits are 23 in 40 attempts (or a multiple), where the binary64
    product is just below 57.5 and [accuracy] is 57, not 58. *)
Theorem accuracy_follows_hits_and_misses_in_binary64 es s :
  run es mount = Some s ->
  accuracy (stats s) = js_accuracy (hits (stats s)) (misses (stats s)) /\
  (hits (stats s) + misses (stats s) = 0 -> accuracy (stats s) = 0) /\
  (forall targetId,
     let s' := step (TargetClick targetId) s in
     accuracy (stats s') = js_accuracy (hits (stats s')) (misses (stats s'))) /\
  (let s' := step AreaClick s in
   accuracy (stats s') = js_accuracy (hits (stats s')) (misses (stats s'))) /\
  (hits (stats s) <= 100 -> misses (stats s) <= 100 ->
   (40 * hits (stats s) <> 23 * (hits (stats s) + misses (stats s)) ->
    accuracy (stats s) = spec_accuracy (hits (stats s)) (misses (stats s))) /\
   (0 < hits (stats s) ->
    40 * hits (stats s) = 23 * (hits (stats s) + misses (stats s)) ->
    accuracy (stats s) = 57 /\
    spec_accuracy (hits (stats s)) (misses (stats s)) = 58)).
Proof.
  intros Hrun.
  reached Hrun Hr.
  destruct (stats_invariant s Hr) as (Hh & Hm & _ & _ & Ha).
  split; [exact Ha|]. split; [|split; [|split]].
  - intros H0. rewrite Ha. unfold js_accuracy.
    now rewrite H0.
  - intros targetId s'. subst s'. rewrite step_stats. reflexivity.
  - intros s'. subst s'. rewrite step_stats. reflexivity.
  - intros Hh100 Hm100. rewrite Ha.
    apply js_accuracy_up_to_100; lia.
Qed.

Lemma accuracy_follows_hits_and_misses_in_binary64_witness :
  run twenty_three_of_forty mount
  = Some (final twenty_three_of_forty mount) /\
  accuracy (stats (final twenty_three_of_forty mount)) = 57.
Proof.
  assert (Hrun : run twenty_three_of_forty mount
                 = Some (final twenty_three_of_forty mount))
    by (vm_compute; reflexivity).
  assert (Hh : hits (stats (final twenty_three_of_forty mount)) <= 100)
    by (vm_compute; discriminate).
  assert (Hm : misses (stats (final twenty_three_of_forty mount)) <= 100)
    by (vm_compute; discriminate).
  assert (Hpos : 0 < hits (stats (final twenty_three_of_forty mount)))
    by (vm_compute; reflexivity).
  assert (Hratio : 40 * hits (stats (final twenty_three_of_forty mount))
                   = 23 * (hits (stats (final twenty_three_of_forty mount))
                           + misses (stats (final twenty_three_of_forty mount))))
    by (vm_compute; reflexivity).
  split; [exact Hrun|].
  destruct (accuracy_follows_hits_and_misses_in_binary64
              twenty_three_of_forty (final twenty_three_of_forty mount) Hrun)
    as (_ & _ & _ & _ & Hbounded).
  destruct (Hbounded Hh Hm) as (_ & H2340).
  destruct (H2340 Hpos Hratio) as (H57 & _).
  exact H57.
Defined.

(** C1 as the claim states it, with the percentage rounded exactly, does
    not hold: the session with 23 hits and 17 misses can be played, its
    exact percentage is 57.5, which rounds to 58, and the component's
    [accuracy] is 57. *)
Lemma accuracy_is_not_the_exact_percentage :
  run twenty_three_of_forty mount
  = Some (final twenty_three_of_forty mount) /\
  hits (stats (final twenty_three_of_forty mount)) = 23 /\
  misses (stats (final twenty_three_of_forty mount)) = 17 /\
  accuracy (stats (final twenty_three_of_forty mount)) = 57 /\
  spec_accuracy (hits (stats (final twenty_three_of_forty mount)))
                (misses (stats (final twenty_three_of_forty mount))) = 58 /\
  accuracy (stats (final twenty_three_of_forty mount))
  <> spec_accuracy (hits (stats (final twenty_three_of_forty mount)))
                   (misses (stats (final twenty_three_of_forty mount))).
Proof.
  vm_compute. repeat split; try reflexivity.
  intros H. discriminate H.
Qed.

(** The percentages of the specification's scenarios, as the component
    computes them: one hit, 100; one hit and one miss, 50; two hits and
    one miss, 67. *)
Example accuracy_scenarios :
  js_accuracy 1 0 = 100 /\ js_accuracy 1 1 = 50 /\ js_accuracy 2 1 = 67.
Proof. repeat split; reflexivity. Qed.

(** Where the two part: 23 hits out of 40 attempts are exactly 57.5
    percent, but [23 / 40] is a little below 0.575 in binary64 and the
    product with 100 a little below 57.5, so the component shows 57. *)
Remark accuracy_is_binary64 :
  js_accuracy 23 17 = 57 /\ spec_accuracy 23 17 = 58.
Proof. split; reflexivity. Qed.

Lemma agree_upto_100 :
  forallb (fun k => (fun h => forallb (fun k' => agree h (Z.of_nat k'))
                                      (seq 0 101)) (Z.of_nat k))
          (seq 0 101) = true.
Proof. vm_compute. reflexivity. Qed.

(** That ratio is the only one where the two part, as far as a session
    goes: with at most 100 hits and at most 100 misses the component
    shows the exactly rounded percentage unless [hits / (hits + misses)]
    is [23 / 40]. *)
Lemma accuracy_exact_up_to_100 hits misses :
  0 <= hits <= 100 -> 0 <= misses <= 100 ->
  40 * hits <> 23 * (hits + misses) ->
  js_accuracy hits misses = spec_accuracy hits misses.
Proof.
  intros Hh Hm Hne.
  assert (H : agree hits misses = true).
  { apply (forallb_upto (agree hits) 101); [|lia].
    apply (forallb_upto
             (fun h => forallb (fun k' => agree h (Z.of_nat k')) (seq 0 101))
             101 agree_upto_100); lia. }
  unfold agree in H. apply orb_true_iff in H as [H|H].
  - now apply Z.eqb_eq in H.
  - apply Z.eqb_eq in H. contradiction.
Qed.

(** C2.  A hit adds exactly [100 + 10 * c] to [score], [c] being [combo]
    before the hit increments it; a miss leaves [score] as it is. *)
Theorem hit_scores_by_prior_combo s targetId :
  score (stats (step (TargetClick targetId) s)) =
    score (stats s) + (100 + 10 * combo s) /\
  score (stats (step AreaClick s)) = score (stats s).
Proof.
  rewrite !step_stats. cbn [score]. split; lia.
Qed.

(** The sample session step by step: the first hit, at [combo] 0, scores
    100; the miss resets the streak; the second hit, at [combo] 0 again,
    scores 100 more. *)
Example sample_scores :
  map (fun s => (score (stats s), combo s, maxCombo s))
      (history (tl sample) (step StartClick mount))
  = [(0, 0, 0); (0, 0, 0); (100, 1, 1); (100, 0, 1); (100, 0, 1);
     (200, 1, 1)].
Proof. vm_compute. reflexivity. Qed.

(** The same for the handler alone: the bonus is computed from the [combo]
    the callback has captured. *)
Lemma hitTarget_score combo_r maxCombo_r targetId s :
  score (stats (hitTarget combo_r maxCombo_r targetId s)) =
    score (stats s) + 100 + combo_r * 10.
Proof.
  unfold hitTarget. simpl.
  destruct (combo s + 1 >? maxCombo_r); reflexivity.
Qed.

(** C3.  [combo] is never negative; a miss sets it to 0; a hit makes it
    one more than it was. *)
Theorem combo_discipline es s :
  run es mount = Some s ->
  0 <= combo s /\
  combo (step AreaClick s) = 0 /\
  (forall targetId, combo (step (TargetClick targetId) s) = combo s + 1).
Proof.
  intros Hrun.
  reached Hrun Hr.
  destruct (stats_invariant s Hr) as (_ & _ & _ & Hc & _).
  split; [exact Hc|]. split.
  - now rewrite step_combo.
  - intros targetId. now rewrite step_combo.
Qed.

Lemma combo_discipline_witness :
  run sample mount = Some (final sample mount) /\
  0 <= combo (final sample mount) /\
  combo (step AreaClick (final sample mount)) = 0.
Proof.
  assert (Hrun : run sample mount = Some (final sample mount))
    by (vm_compute; reflexivity).
  split; [exact Hrun|].
  destruct (combo_discipline sample (final sample mount) Hrun)
    as (H0 & Hmiss & _).
  split; [exact H0|exact Hmiss].
Defined.

(** Rendering a state whose [gameState] and [timeLeft] did not change
    re-runs no effect. *)
Lemma commit_idle prev next :
  gameState next = gameState prev -> timeLeft next = timeLeft prev ->
  commit prev next = next.
Proof.
  unfold commit, initialSpawnEffect, expiryEffect, clockEffect.
  destruct prev as [g ? ? tl ? ? ? ? ? ? ?], next as [g' ? ? tl' ? ? ? ? ? ? ?].
  simpl. intros -> ->. rewrite Z.eqb_refl.
  destruct g; reflexivity.
Qed.

(** C5.  The expiry watcher is live, with a period of 100 ms, exactly while
    playing.  One tick of it keeps the targets younger than 3000 ms and
    removes exactly those whose age [now - createdAt] is at least 3000 ms;
    the survivors stay in their order, and neither [misses] nor any other
    cell than [targets] changes. *)
Theorem expiry_tick_removes_old_targets es s now :
  run es mount = Some s ->
  watcher s = (if GameState_eqb (gameState s) playing
               then Some 100 else None) /\
  let s' := step (ExpiryFire now) s in
  targets s' = filter (fun t => now - createdAt t <? 3000) (targets s) /\
  (forall t, In t (targets s) ->
     (In t (targets s') <-> now - createdAt t < 3000) /\
     (~ In t (targets s') <-> now - createdAt t >= 3000)) /\
  (forall t, In t (targets s') -> In t (targets s)) /\
  subseq (targets s') (targets s) /\
  s' = setTargets (fun _ => targets s') s /\
  stats s' = stats s.
Proof.
  intros Hrun.
  reached Hrun Hr.
  split; [apply (timers_invariant s Hr)|].
  assert (Hstep : step (ExpiryFire now) s = expire now s).
  { unfold step. apply commit_idle; reflexivity. }
  cbv zeta. rewrite Hstep. unfold expire. cbn [targets setTargets stats].
  split; [reflexivity|]. split; [|split; [|split; [|split]]].
  - intros t Ht. rewrite filter_In.
    destruct (Z.ltb_spec (now - createdAt t) 3000);
      intuition (try lia; try discriminate).
  - intros t Ht. now apply filter_In in Ht.
  - apply filter_subseq.
  - reflexivity.
  - reflexivity.
Qed.

Lemma expiry_tick_removes_old_targets_witness :
  run sample mount = Some (final sample mount) /\
  watcher (final sample mount) =
    (if GameState_eqb (gameState (final sample mount)) playing
     then Some 100 else None).
Proof.
  assert (Hrun : run sample mount = Some (final sample mount))
    by (vm_compute; reflexivity).
  split; [exact Hrun|].
  destruct (expiry_tick_removes_old_targets sample (final sample mount) 0 Hrun)
    as (Hw & _).
  exact Hw.
Defined.

(** C6.  The period of the spawn interval is
    [max(400, 1000 - (60 - timeLeft) * 10)] for every [timeLeft]: 1000 at
    [timeLeft = 60], never below 400; and while playing the interval is
    live with the period of the current [timeLeft]. *)
Theorem spawn_period_formula es s :
  run es mount = Some s ->
  (forall timeLeft, spawnInterval timeLeft = spec_period timeLeft) /\
  spawnInterval 60 = 1000 /\
  (forall timeLeft, 400 <= spawnInterval timeLeft) /\
  (gameState s = playing -> spawner s = Some (spec_period (timeLeft s))).
Proof.
  intros Hrun.
  reached Hrun Hr.
  assert (Heq : forall tl, spawnInterval tl = spec_period tl).
  { intros tl. unfold spawnInterval, spec_period, JS.Math_max.
    destruct (Z.gtb_spec (1000 - (60 - tl) * 10) 400); lia. }
  split; [exact Heq|]. split; [reflexivity|]. split.
  - intros tl. rewrite Heq. unfold spec_period. lia.
  - intros Hp. destruct (timers_invariant s Hr) as (_ & Hsp & _).
    rewrite Hsp, Hp, Heq. reflexivity.
Qed.

Lemma spawn_period_formula_witness :
  run sample mount = Some (final sample mount) /\
  spawnInterval 60 = 1000.
Proof.
  assert (Hrun : run sample mount = Some (final sample mount))
    by (vm_compute; reflexivity).
  split; [exact Hrun|].
  destruct (spawn_period_formula sample (final sample mount) Hrun)
    as (_ & H60 & _).
  exact H60.
Defined.

(** C7.  [timeLeft] is always an integer from 0 to 60.  The session clock
    ticks only while playing; a tick with more than one second left takes
    one second off and stays in [playing]; a tick with one second (or
    less) left ends the session at once and leaves [timeLeft] at 0. *)
Theorem clock_tick_counts_down es s :
  run es mount = Some s ->
  0 <= timeLeft s <= 60 /\
  (enabled ClockFire s = true <-> gameState s = playing) /\
  let s' := step ClockFire s in
  (1 < timeLeft s ->
     timeLeft s' = timeLeft s - 1 /\ gameState s' = gameState s) /\
  (timeLeft s <= 1 ->
     timeLeft s' = 0 /\ gameState s' = ended).
Proof.
  intros Hrun.
  reached Hrun Hr.
  split; [apply (time_invariant s Hr)|]. split.
  - destruct (timers_invariant s Hr) as (Hck & _).
    cbn [enabled]. rewrite Hck.
    destruct (gameState s); simpl; split; congruence.
  - cbv zeta. rewrite step_timeLeft, step_gameState.
    destruct (Z.leb_spec (timeLeft s) 1); split; intros; try lia; auto.
Qed.

Lemma clock_tick_counts_down_witness :
  run sample mount = Some (final sample mount) /\
  0 <= timeLeft (final sample mount) <= 60.
Proof.
  assert (Hrun : run sample mount = Some (final sample mount))
    by (vm_compute; reflexivity).
  split; [exact Hrun|].
  destruct (clock_tick_counts_down sample (final sample mount) Hrun)
    as (Hrange & _).
  exact Hrange.
Defined.

(** C8.  Play Again from [ended] and START TRAINING from [menu] run the
    same [startGame] and lead to the same session: [playing], stats all
    0, [timeLeft] 60, [combo] and [maxCombo] 0, no targets, the id counter
    back at 0, and the three intervals armed alike; each schedules the
    three opening spawns behind whatever timeouts were still pending. *)
Theorem restart_same_as_fresh_start s_ended s_menu :
  gameState s_ended = ended -> gameState s_menu = menu ->
  session_of (step StartClick s_ended) = session_of (step StartClick s_menu) /\
  session_of (step StartClick s_ended) = fresh_session /\
  pendingSpawns (step StartClick s_ended) =
    pendingSpawns s_ended ++ [0; 300; 600] /\
  pendingSpawns (step StartClick s_menu) =
    pendingSpawns s_menu ++ [0; 300; 600].
Proof.
  destruct s_ended as [g ts st tl c m tid ck sp w p],
           s_menu as [g' ts' st' tl' c' m' tid' ck' sp' w' p'].
  cbn [gameState]. intros -> ->.
  repeat split; try reflexivity.
  - cbv [step handler startGame commit clockEffect expiryEffect
         initialSpawnEffect]. cbn. rewrite <- !app_assoc. reflexivity.
  - cbv [step handler startGame commit clockEffect expiryEffect
         initialSpawnEffect]. cbn. rewrite <- !app_assoc. reflexivity.
Qed.

Lemma restart_same_as_fresh_start_witness :
  gameState (final finished mount) = ended /\ gameState mount = menu /\
  session_of (step StartClick (final finished mount)) = fresh_session.
Proof.
  assert (He : gameState (final finished mount) = ended)
    by (vm_compute; reflexivity).
  assert (Hm : gameState mount = menu) by reflexivity.
  split; [exact He|]. split; [exact Hm|].
  destruct (restart_same_as_fresh_start (final finished mount) mount He Hm)
    as (_ & Hfresh & _).
  exact Hfresh.
Defined.

(** ** The high-water mark *)

(** Within a session [maxCombo] never goes down. *)
Lemma maxCombo_step e s :
  is_start e = false -> maxCombo s <= maxCombo (step e s).
Proof.
  intros He. rewrite step_maxCombo.
  destruct e; try discriminate He; try lia.
  destruct (Z.gtb_spec (combo s + 1) (maxCombo s)); lia.
Qed.

(** One event keeps [maxCombo] the largest [combo] seen so far. *)
Lemma is_max_step e s past :
  is_start e = false -> 0 <= combo s ->
  is_max (maxCombo s) (past ++ [combo s]) ->
  0 <= combo (step e s) /\
  is_max (maxCombo (step e s)) ((past ++ [combo s]) ++ [combo (step e s)]).
Proof.
  intros He Hc [Hin Hall].
  assert (Hcm : combo s <= maxCombo s).
  { rewrite Forall_forall in Hall. apply Hall.
    apply in_or_app. right. now left. }
  rewrite step_combo, step_maxCombo.
  assert (Hgrow : forall c m',
            maxCombo s <= m' -> c <= m' ->
            (m' = maxCombo s \/ m' = c) ->
            is_max m' ((past ++ [combo s]) ++ [c])).
  { intros c m' Hle Hc' Hor. split.
    - apply in_or_app. destruct Hor as [->| ->]; [now left|right; now left].
    - apply Forall_app. split.
      + eapply Forall_impl; [|exact Hall]. simpl. intros; lia.
      + now repeat constructor. }
  destruct e; try discriminate He; cbn beta iota;
    try (split; [lia|apply Hgrow; [lia|lia|now left]]).
  destruct (Z.gtb_spec (combo s + 1) (maxCombo s)).
  - split; [lia|]. apply Hgrow; [lia|lia|now right].
  - split; [lia|]. apply Hgrow; [lia|lia|now left].
Qed.

Lemma is_max_history es : forall s past,
  forallb (fun e => negb (is_start e)) es = true ->
  0 <= combo s ->
  is_max (maxCombo s) (past ++ [combo s]) ->
  is_max (maxCombo (final es s)) (past ++ map combo (history es s)).
Proof.
  induction es as [|e es IH]; intros s past Hns Hc Hmax.
  - exact Hmax.
  - simpl in Hns. apply andb_true_iff in Hns as [He Hns].
    apply negb_true_iff in He.
    destruct (is_max_step e s past He Hc Hmax) as [Hc' Hmax'].
    specialize (IH (step e s) (past ++ [combo s]) Hns Hc' Hmax').
    cbn [history map final fold_left].
    change (combo s :: map combo (history es (step e s)))
      with ([combo s] ++ map combo (history es (step e s))).
    rewrite app_assoc. exact IH.
Qed.

Lemma maxCombo_sorted es : forall s,
  forallb (fun e => negb (is_start e)) es = true ->
  Sorted Z.le (map maxCombo (history es s)).
Proof.
  induction es as [|e es IH]; intros s Hns.
  - repeat constructor.
  - simpl in Hns. apply andb_true_iff in Hns as [He Hns].
    apply negb_true_iff in He.
    cbn [history map]. constructor.
    + apply (IH (step e s) Hns).
    + destruct es; cbn [history map]; constructor;
        now apply maxCombo_step.
Qed.

(** C9.  In a session (the events after a start, up to the next one)
    [maxCombo] never decreases from one state to a later one, and after
    every event it is the largest value [combo] has had since the session
    started. *)
Theorem maxCombo_is_high_water_mark s0 es :
  forallb (fun e => negb (is_start e)) es = true ->
  let s := step StartClick s0 in
  StronglySorted Z.le (map maxCombo (history es s)) /\
  is_max (maxCombo (final es s)) (map combo (history es s)).
Proof.
  intros Hns s. split.
  - apply Sorted_StronglySorted.
    + intros a b c; apply Z.le_trans.
    + now apply maxCombo_sorted.
  - apply (is_max_history es s []); [exact Hns| |].
    + subst s. rewrite step_combo. lia.
    + subst s. rewrite step_combo, step_maxCombo. cbn [app].
      split; [now left|repeat constructor; lia].
Qed.

Lemma maxCombo_is_high_water_mark_witness :
  forallb (fun e => negb (is_start e)) (tl sample) = true /\
  is_max (maxCombo (final (tl sample) (step StartClick mount)))
         (map combo (history (tl sample) (step StartClick mount))).
Proof.
  assert (Hns : forallb (fun e => negb (is_start e)) (tl sample) = true)
    by reflexivity.
  split; [exact Hns|].
  destruct (maxCombo_is_high_water_mark mount (tl sample) Hns) as (_ & Hmax).
  exact Hmax.
Defined.

(** ** Hits *)

(** [hitTarget], cell by cell. *)
Lemma hitTarget_fields combo_r maxCombo_r targetId s :
  hitTarget combo_r maxCombo_r targetId s =
  mkApp (gameState s)
        (filter (fun t => negb (id t =? targetId)) (targets s))
        (mkStats (score (stats s) + 100 + combo_r * 10)
                 (hits (stats s) + 1) (misses (stats s))
                 (if hits (stats s) + 1 + misses (stats s) >? 0
                  then JS.Math_round
                         (JS.Number (hits (stats s) + 1)
                          / JS.Number (hits (stats s) + 1 + misses (stats s))
                          * JS.Number 100)%float
                  else 0))
        (timeLeft s) (combo s + 1)
        (if combo s + 1 >? maxCombo_r then combo s + 1 else maxCombo s)
        (targetIdRef s) (clock s) (spawner s) (watcher s) (pendingSpawns s).
Proof.
  destruct s as [g ts st tm c m tid ck sp w p]. unfold hitTarget.
  cbn [setTargets setStats gameState targets stats timeLeft combo maxCombo
       targetIdRef clock spawner watcher pendingSpawns].
  destruct (c + 1 >? maxCombo_r); reflexivity.
Qed.

(** C10.  A hit on a target of the collection takes out that one target:
    ids are unique, so the collection is the target between two runs of
    other targets, and those two runs, unchanged and in order, are what is
    left.  Of the other cells only [score], [hits], [accuracy], [combo]
    and [maxCombo] change: [misses], [timeLeft], [gameState], the id
    counter and the timers are as before. *)
Theorem hit_removes_one_target es s t :
  run es mount = Some s -> In t (targets s) ->
  let s' := step (TargetClick (id t)) s in
  (exists l1 l2,
     targets s = l1 ++ t :: l2 /\
     targets s' = l1 ++ l2 /\
     (forall u, In u (l1 ++ l2) -> id u <> id t)) /\
  misses (stats s') = misses (stats s) /\
  timeLeft s' = timeLeft s /\
  gameState s' = gameState s /\
  s' = s |> setTargets (fun _ => targets s')
         |> setStats (fun prev =>
              mkStats (score (stats s')) (hits (stats s')) (misses prev)
                      (accuracy (stats s')))
         |> setMaxCombo (maxCombo s')
         |> setCombo (combo s').
Proof.
  intros Hrun Hin.
  reached Hrun Hr.
  destruct (ids_invariant s Hr) as [_ ND].
  destruct (filter_by_id_split t (targets s) ND Hin) as (l1 & l2 & E1 & E2 & E3).
  assert (Hstep : step (TargetClick (id t)) s
                  = hitTarget (combo s) (maxCombo s) (id t) s).
  { unfold step. apply commit_idle; cbn [handler];
      rewrite hitTarget_fields; reflexivity. }
  cbv zeta. rewrite Hstep, hitTarget_fields.
  cbn [targets stats misses timeLeft gameState score hits accuracy combo
       maxCombo].
  split; [|split; [|split; [|split]]]; try reflexivity.
  exists l1, l2. rewrite E2. auto.
Qed.

Lemma hit_removes_one_target_witness :
  run (firstn 2 sample) mount = Some (final (firstn 2 sample) mount) /\
  In first_target (targets (final (firstn 2 sample) mount)) /\
  misses (stats (step (TargetClick (id first_target))
                      (final (firstn 2 sample) mount))) =
  misses (stats (final (firstn 2 sample) mount)).
Proof.
  assert (Hrun : run (firstn 2 sample) mount
                 = Some (final (firstn 2 sample) mount))
    by (vm_compute; reflexivity).
  assert (Hin : In first_target (targets (final (firstn 2 sample) mount)))
    by (vm_compute; left; reflexivity).
  split; [exact Hrun|]. split; [exact Hin|].
  destruct (hit_removes_one_target (firstn 2 sample)
              (final (firstn 2 sample) mount) first_target Hrun Hin)
    as (_ & Hmisses & _).
  exact Hmisses.
Defined.

(** ** Leaving [playing] *)

(** The End button, and the clock's last tick, clear the collection and
    all three intervals; the timeouts of the initial-spawn effect are not
    among what they clear. *)
Lemma leaving_playing_clears_intervals s e :
  reachable s -> gameState s = playing ->
  e = EndClick \/ (e = ClockFire /\ timeLeft s <= 1) ->
  let s' := step e s in
  gameState s' = ended /\ targets s' = [] /\
  clock s' = None /\ spawner s' = None /\ watcher s' = None /\
  pendingSpawns s' = pendingSpawns s.
Proof.
  intros Hr Hp He.
  assert (Hen : enabled e s = true).
  { destruct He as [->|[-> _]]; cbn [enabled].
    - now rewrite Hp.
    - destruct (timers_invariant s Hr) as (-> & _). now rewrite Hp. }
  assert (Hg : gameState (step e s) = ended).
  { rewrite step_gameState. destruct He as [->|[-> Hle]]; [reflexivity|].
    destruct (Z.leb_spec (timeLeft s) 1); [reflexivity|lia]. }
  destruct (timers_invariant (step e s) (reachable_step e s Hr Hen))
    as (Hck & Hsp & Hw).
  rewrite Hg in Hck, Hsp, Hw.
  cbv zeta. split; [exact Hg|]. split; [|split; [|split; [|split]]]; auto.
  - unfold step. rewrite (proj1 (proj2 (commit_frame _ _))).
    destruct He as [->|[-> Hle]]; [reflexivity|].
    cbn [handler]. unfold clockTick.
    destruct (Z.leb_spec (timeLeft s) 1); [reflexivity|lia].
  - destruct s as [g ts st tm c m tid ck sp w p]. cbn [gameState] in Hp.
    subst g. destruct He as [->|[-> Hle]].
    + reflexivity.
    + cbn [timeLeft] in Hle.
      unfold step, handler, clockTick. cbn [timeLeft].
      destruct (Z.leb_spec tm 1); [reflexivity|lia].
Qed.

(** A pending timeout fires whatever the state is: [spawnTarget] does not
    look at [gameState]. *)
Lemma timeout_spawns_in_any_state s k d r :
  rect d = Some r ->
  let s' := step (TimeoutFire k d) s in
  gameState s' = gameState s /\
  exists t, id t = targetIdRef s /\ createdAt t = now d /\
            targets s' = targets s ++ [t].
Proof.
  intros Hrect. cbv zeta. rewrite step_gameState. split; [reflexivity|].
  unfold step. rewrite (proj1 (proj2 (commit_frame _ _))).
  cbn [handler]. unfold spawnTarget. rewrite Hrect.
  cbn [setTargets setTargetIdRef setPendingSpawns targets targetIdRef].
  eexists. split; [|split]. 3: reflexivity. all: reflexivity.
Qed.

(** C4 (the code departs from the claim).  Ending the session clears the
    collection and the three intervals, but the opening timeouts stay
    scheduled: in the abandoned session two of them are pending right
    after End, one can fire, and it puts a target into the collection of
    a session that is [ended]. *)
Theorem opening_timeouts_survive_endGame :
  let s_end := final (firstn 3 abandoned) mount in
  let s_late := final abandoned mount in
  run abandoned mount = Some s_late /\
  gameState s_end = ended /\ targets s_end = [] /\
  clock s_end = None /\ spawner s_end = None /\ watcher s_end = None /\
  pendingSpawns s_end = [300; 600] /\
  gameState s_late = ended /\
  map id (targets s_late) = [1] /\ map createdAt (targets s_late) = [310].
Proof. vm_compute. repeat split. Qed.

(** * Further properties of the component *)

(** ** Events, cell by cell *)

Lemma step_quiet e s : quiet e = true -> step e s = handler e s.
Proof.
  intros Hq. unfold step. apply commit_idle.
  - destruct e; try discriminate Hq; cbn [handler]; try reflexivity.
    + now rewrite hitTarget_fields.
    + apply (proj1 (spawnTarget_session d s)).
    + now rewrite (proj1 (spawnTarget_session _ _)).
  - destruct e; try discriminate Hq; cbn [handler]; try reflexivity.
    + now rewrite hitTarget_fields.
    + apply (proj2 (spawnTarget_session d s)).
    + now rewrite (proj2 (spawnTarget_session _ _)).
Qed.

(** [spawnTarget] either finds no play area and does nothing, or appends
    one target carrying the counter's value and the current time, and
    moves the counter on by one. *)
Lemma spawnTarget_cases d s :
  (rect d = None /\ spawnTarget d s = s) \/
  (exists t, id t = targetIdRef s /\ createdAt t = now d /\
             targets (spawnTarget d s) = targets s ++ [t] /\
             targetIdRef (spawnTarget d s) = targetIdRef s + 1).
Proof.
  unfold spawnTarget. destruct (rect d) as [r|].
  - right. eexists. split; [|split; [|split]].
    3: reflexivity. all: reflexivity.
  - left. split; reflexivity.
Qed.

(** What an event of a session in progress, or the End button, does to
    the collection and the id counter: it keeps some of the targets and
    the counter, or appends one target numbered by the counter. *)
Lemma step_targets_cases e s :
  is_start e = false ->
  (targetIdRef (step e s) = targetIdRef s /\
   exists p, targets (step e s) = filter p (targets s)) \/
  (exists t, id t = targetIdRef s /\
             targets (step e s) = targets s ++ [t] /\
             targetIdRef (step e s) = targetIdRef s + 1).
Proof.
  intros He.
  assert (Hall : forall l : list Target, l = filter (fun _ => true) l).
  { intros l. symmetry. apply filter_all. reflexivity. }
  assert (Hnone : forall l : list Target, [] = filter (fun _ => false) l).
  { induction l; simpl; auto. }
  unfold step.
  rewrite (proj1 (proj2 (commit_frame _ _))).
  rewrite (proj2 (proj2 (proj2 (proj2 (proj2 (proj2 (commit_frame _ _))))))).
  destruct e; try discriminate He; cbn [handler].
  - left. split; [reflexivity|]. exists (fun _ => false). apply Hnone.
  - left. split; [reflexivity|]. exists (fun _ => true). apply Hall.
  - left. rewrite hitTarget_fields. split; [reflexivity|]. eexists. reflexivity.
  - left. split; [reflexivity|]. exists (fun _ => true). apply Hall.
  - left. unfold clockTick. destruct (timeLeft s <=? 1).
    + split; [reflexivity|]. exists (fun _ => false). apply Hnone.
    + split; [reflexivity|]. exists (fun _ => true). apply Hall.
  - destruct (spawnTarget_cases d s) as [[_ ->]|(t & H1 & H2 & H3 & H4)].
    + left. split; [reflexivity|]. exists (fun _ => true). apply Hall.
    + right. exists t. repeat split; auto.
  - left. split; [reflexivity|]. eexists. reflexivity.
  - destruct (spawnTarget_cases d
                (setPendingSpawns (remove_nth k (pendingSpawns s)) s))
      as [[_ ->]|(t & H1 & H2 & H3 & H4)].
    + left. split; [reflexivity|]. exists (fun _ => true). apply Hall.
    + right. exists t. repeat split; auto.
Qed.

(** ** Target ids *)

Lemma StronglySorted_map_filter (p : Target -> bool) (l : list Target) :
  StronglySorted Z.lt (map id l) ->
  StronglySorted Z.lt (map id (filter p l)).
Proof.
  induction l as [|a l IH]; simpl; intros Hs; [constructor|].
  apply StronglySorted_inv in Hs as [Hs Hall].
  destruct (p a); simpl; auto.
  constructor; auto.
  rewrite Forall_forall in *. intros i Hi.
  apply in_map_iff in Hi as (u & <- & Hu).
  apply filter_In in Hu as [Hu _].
  apply Hall. now apply in_map.
Qed.

Lemma StronglySorted_map_snoc (l : list Target) (t : Target) :
  StronglySorted Z.lt (map id l) ->
  Forall (fun u => id u < id t) l ->
  StronglySorted Z.lt (map id (l ++ [t])).
Proof.
  induction l as [|a l IH]; simpl; intros Hs Hlt.
  - repeat constructor.
  - apply StronglySorted_inv in Hs as [Hs Hall].
    inversion Hlt as [|? ? Ha Hlt']; subst.
    constructor; auto.
    rewrite map_app. apply Forall_app. split; auto.
    simpl. repeat constructor. exact Ha.
Qed.

Lemma ids_sorted_filter n p l : ids_sorted n l -> ids_sorted n (filter p l).
Proof.
  intros [Hs Hb]. split.
  - now apply StronglySorted_map_filter.
  - rewrite Forall_forall in *. intros t Ht.
    apply filter_In in Ht as [Ht _]. auto.
Qed.

Lemma ids_sorted_invariant s :
  reachable s -> 0 <= targetIdRef s /\ ids_sorted (targetIdRef s) (targets s).
Proof.
  induction 1 as [|e s Hr [H0 IH] He].
  - split; [simpl; lia|]. split; constructor.
  - destruct (is_start e) eqn:Hst.
    + destruct e; try discriminate Hst.
      unfold step.
      rewrite (proj1 (proj2 (commit_frame _ _))).
      rewrite (proj2 (proj2 (proj2 (proj2 (proj2 (proj2 (commit_frame _ _))))))).
      cbn. split; [lia|]. split; constructor.
    + destruct (step_targets_cases e s Hst)
        as [[-> [p ->]]|(t & Hid & -> & ->)].
      * split; [exact H0|]. now apply ids_sorted_filter.
      * destruct IH as [Hs Hb]. split; [lia|]. split.
        -- apply StronglySorted_map_snoc; [exact Hs|].
           eapply Forall_impl; [|exact Hb]. simpl. intros; lia.
        -- apply Forall_app. split.
           ++ eapply Forall_impl; [|exact Hb]. simpl. intros; lia.
           ++ repeat constructor; lia.
Qed.

(** X1.  In every state the component can reach, the ids of the targets
    go up strictly from the front of the collection to its back (so the
    collection is in spawn order and holds no id twice), and every id is
    at least 0 and below the id counter. *)
Theorem target_ids_increase es s :
  run es mount = Some s ->
  StronglySorted Z.lt (map id (targets s)) /\
  NoDup (map id (targets s)) /\
  (forall t, In t (targets s) -> 0 <= id t < targetIdRef s).
Proof.
  intros Hrun. reached Hrun Hr.
  destruct (ids_sorted_invariant s Hr) as (_ & Hs & Hb).
  split; [exact Hs|]. split.
  - apply (ids_invariant s Hr).
  - now rewrite Forall_forall in Hb.
Qed.

Lemma target_ids_increase_witness :
  run (firstn 5 sample) mount = Some (final (firstn 5 sample) mount) /\
  StronglySorted Z.lt (map id (targets (final (firstn 5 sample) mount))).
Proof.
  assert (Hrun : run (firstn 5 sample) mount
                 = Some (final (firstn 5 sample) mount))
    by (vm_compute; reflexivity).
  split; [exact Hrun|].
  destruct (target_ids_increase (firstn 5 sample)
              (final (firstn 5 sample) mount) Hrun) as (Hs & _).
  exact Hs.
Defined.

Lemma NoDup_map_id_inj (l : list Target) (t u : Target) :
  NoDup (map id l) -> In t l -> In u l -> id t = id u -> t = u.
Proof.
  induction l as [|a l IH]; simpl; intros ND Ht Hu E; [contradiction|].
  inversion ND as [|? ? Hnotin ND']; subst.
  destruct Ht as [->|Ht], Hu as [->|Hu]; auto.
  - exfalso. apply Hnotin. rewrite E. now apply in_map.
  - exfalso. apply Hnotin. rewrite <- E. now apply in_map.
Qed.

Lemma seen_cons e es s : seen (e :: es) s = targets s ++ seen es (step e s).
Proof. reflexivity. Qed.

Lemma seen_head es s t : In t (targets s) -> In t (seen es s).
Proof.
  intros Ht. destruct es; unfold seen; simpl; apply in_or_app; now left.
Qed.

(** Along a session the targets met so far stay below the counter and
    apart from each other by id. *)
Lemma ids_fresh_history es : forall s past,
  forallb (fun e => negb (is_start e)) es = true ->
  (forall t, In t (past ++ targets s) -> id t < targetIdRef s) ->
  (forall t u, In t (past ++ targets s) -> In u (past ++ targets s) ->
               id t = id u -> t = u) ->
  forall t u, In t (past ++ seen es s) -> In u (past ++ seen es s) ->
              id t = id u -> t = u.
Proof.
  induction es as [|e es IH]; intros s past Hns Hb Hinj.
  - unfold seen. simpl. rewrite app_nil_r. exact Hinj.
  - simpl in Hns. apply andb_true_iff in Hns as [He Hns].
    apply negb_true_iff in He.
    rewrite seen_cons, app_assoc.
    apply (IH (step e s) (past ++ targets s) Hns).
    + intros t Ht.
      destruct (step_targets_cases e s He)
        as [[Hc [p Hp]]|(n & Hid & Hp & Hc)]; rewrite Hc.
      * apply Hb. apply in_app_or in Ht as [Ht|Ht]; [exact Ht|].
        rewrite Hp in Ht. apply filter_In in Ht as [Ht _].
        apply in_or_app. now right.
      * apply in_app_or in Ht as [Ht|Ht].
        -- specialize (Hb t Ht). lia.
        -- rewrite Hp in Ht. apply in_app_or in Ht as [Ht|[<-|[]]].
           ++ assert (Hlt : id t < targetIdRef s)
                by (apply Hb; apply in_or_app; now right). lia.
           ++ lia.
    + assert (Hold : forall t, In t ((past ++ targets s) ++ targets (step e s)) ->
                In t (past ++ targets s) \/
                (id t = targetIdRef s /\
                 exists n, id n = targetIdRef s /\ t = n /\
                           targets (step e s) = targets s ++ [n])).
      { intros t Ht. apply in_app_or in Ht as [Ht|Ht]; [now left|].
        destruct (step_targets_cases e s He)
          as [[Hc [p Hp]]|(n & Hid & Hp & Hc)].
        - left. rewrite Hp in Ht. apply filter_In in Ht as [Ht _].
          apply in_or_app. now right.
        - rewrite Hp in Ht. apply in_app_or in Ht as [Ht|[<-|[]]].
          + left. apply in_or_app. now right.
          + right. split; [exact Hid|]. exists n. auto. }
      intros t u Ht Hu E.
      destruct (Hold t Ht) as [Ht'|(Hidt & n & _ & -> & Hp)],
               (Hold u Hu) as [Hu'|(Hidu & n' & _ & -> & Hp')].
      * now apply Hinj.
      * specialize (Hb t Ht'). lia.
      * specialize (Hb u Hu'). lia.
      * rewrite Hp in Hp'. apply app_inv_head in Hp'. now inversion Hp'.
Qed.

(** X2.  Within a session (from any reachable state on, as long as no
    start follows) an id is never reused: two targets that were in the
    collection at any two moments and carry the same id are the same
    target. *)
Theorem target_ids_never_reused es0 s es :
  run es0 mount = Some s ->
  forallb (fun e => negb (is_start e)) es = true ->
  forall t u, In t (seen es s) -> In u (seen es s) -> id t = id u -> t = u.
Proof.
  intros Hrun Hns. reached Hrun Hr.
  destruct (ids_invariant s Hr) as [Hb ND].
  apply (ids_fresh_history es s [] Hns).
  - exact Hb.
  - intros t u Ht Hu. now apply NoDup_map_id_inj with (l := targets s).
Qed.

Lemma target_ids_never_reused_witness :
  run (firstn 2 sample) mount = Some (final (firstn 2 sample) mount) /\
  forallb (fun e => negb (is_start e)) (skipn 2 sample) = true /\
  forall t u,
    In t (seen (skipn 2 sample) (final (firstn 2 sample) mount)) ->
    In u (seen (skipn 2 sample) (final (firstn 2 sample) mount)) ->
    id t = id u -> t = u.
Proof.
  assert (Hrun : run (firstn 2 sample) mount
                 = Some (final (firstn 2 sample) mount))
    by (vm_compute; reflexivity).
  assert (Hns : forallb (fun e => negb (is_start e)) (skipn 2 sample) = true)
    by reflexivity.
  split; [exact Hrun|]. split; [exact Hns|].
  exact (target_ids_never_reused (firstn 2 sample)
           (final (firstn 2 sample) mount) (skipn 2 sample) Hrun Hns).
Defined.

(** ** Hits and the score *)

(** X3.  [hitTarget] does not check that the clicked id is still in the
    collection: when no target carries it, the collection stays as it is,
    and the click still counts as a hit, scores and extends the streak. *)
Theorem hit_on_absent_target_still_scores s targetId :
  (forall t, In t (targets s) -> id t <> targetId) ->
  let s' := step (TargetClick targetId) s in
  targets s' = targets s /\
  hits (stats s') = hits (stats s) + 1 /\
  misses (stats s') = misses (stats s) /\
  score (stats s') = score (stats s) + 100 + combo s * 10 /\
  combo s' = combo s + 1.
Proof.
  intros Habs. cbv zeta.
  rewrite (step_quiet (TargetClick targetId) s eq_refl).
  cbn [handler]. rewrite hitTarget_fields.
  cbn [targets stats hits misses score combo].
  repeat split.
  apply filter_all. intros t Ht.
  apply negb_true_iff, Z.eqb_neq. auto.
Qed.

Lemma hit_on_absent_target_still_scores_witness :
  (forall t, In t (targets (setTargets (fun _ => [first_target]) mount)) ->
             id t <> 5) /\
  targets (step (TargetClick 5) (setTargets (fun _ => [first_target]) mount))
  = targets (setTargets (fun _ => [first_target]) mount).
Proof.
  assert (Habs : forall t,
             In t (targets (setTargets (fun _ => [first_target]) mount)) ->
             id t <> 5).
  { intros t [<-|[]]. cbn [id first_target]. lia. }
  split; [exact Habs|].
  destruct (hit_on_absent_target_still_scores
              (setTargets (fun _ => [first_target]) mount) 5 Habs)
    as (Hsame & _).
  exact Hsame.
Defined.

Lemma count_cons p e es :
  count p (e :: es) = (if p e then 1 else 0) + count p es.
Proof.
  unfold count. simpl. destruct (p e); simpl length; lia.
Qed.

Lemma count_nonneg p es : 0 <= count p es.
Proof. unfold count. lia. Qed.

Lemma stats_count_clicks es : forall s,
  forallb (fun e => negb (is_start e)) es = true ->
  hits (stats (final es s)) = hits (stats s) + count is_hit es /\
  misses (stats (final es s)) = misses (stats s) + count is_miss es.
Proof.
  induction es as [|e es IH]; intros s Hns.
  - unfold count. simpl. split; lia.
  - simpl in Hns. apply andb_true_iff in Hns as [He Hns].
    apply negb_true_iff in He.
    destruct (IH (step e s) Hns) as [Hh Hm].
    change (final (e :: es) s) with (final es (step e s)).
    rewrite Hh, Hm, !count_cons, step_stats.
    destruct e; try discriminate He; cbn [is_hit is_miss hits misses];
      split; lia.
Qed.

(** X4.  Until the next start, [hits] goes up by the number of clicks on
    targets and [misses] by the number of clicks on the empty play area;
    no timer callback and no other button touches either. *)
Theorem clicks_are_counted es s :
  forallb (fun e => negb (is_start e)) es = true ->
  hits (stats (final es s)) = hits (stats s) + count is_hit es /\
  misses (stats (final es s)) = misses (stats s) + count is_miss es.
Proof. apply stats_count_clicks. Qed.

Lemma clicks_are_counted_witness :
  forallb (fun e => negb (is_start e)) (tl sample) = true /\
  hits (stats (final (tl sample) (step StartClick mount))) =
    hits (stats (step StartClick mount)) + count is_hit (tl sample).
Proof.
  assert (Hns : forallb (fun e => negb (is_start e)) (tl sample) = true)
    by reflexivity.
  split; [exact Hns|].
  destruct (clicks_are_counted (tl sample) (step StartClick mount) Hns)
    as (Hh & _).
  exact Hh.
Defined.

Lemma score_invariant s :
  reachable s ->
  0 <= combo s /\ combo s <= maxCombo s /\ maxCombo s <= hits (stats s) /\
  100 * hits (stats s) <= score (stats s) /\
  score (stats s)
    <= 100 * hits (stats s) + 5 * hits (stats s) * (hits (stats s) - 1) /\
  (10 | score (stats s)).
Proof.
  induction 1 as [|e s Hr (Hc & Hcm & Hmh & Hlo & Hhi & [k Hk]) He].
  - simpl. repeat split; try lia. exists 0. reflexivity.
  - rewrite step_stats, step_combo, step_maxCombo.
    destruct e; cbn [score hits];
      try (repeat split; try lia; exists k; exact Hk).
    + repeat split; try lia. exists 0. reflexivity.
    + destruct (Z.gtb_spec (combo s + 1) (maxCombo s));
        repeat split; try lia; try nia; exists (k + 10 + combo s); lia.
Qed.

(** X5.  In every reachable state the streak counters and the score are
    bounded by the hits: [0 <= combo <= maxCombo <= hits], and
    [100 * hits <= score <= 100 * hits + 5 * hits * (hits - 1)]; the score
    is a multiple of 10. *)
Theorem score_and_streak_bounds es s :
  run es mount = Some s ->
  0 <= combo s <= maxCombo s /\ maxCombo s <= hits (stats s) /\
  100 * hits (stats s) <= score (stats s)
    <= 100 * hits (stats s) + 5 * hits (stats s) * (hits (stats s) - 1) /\
  (10 | score (stats s)).
Proof.
  intros Hrun. reached Hrun Hr.
  destruct (score_invariant s Hr) as (Hc & Hcm & Hmh & Hlo & Hhi & Hdiv).
  repeat split; assumption.
Qed.

Lemma score_and_streak_bounds_witness :
  run sample mount = Some (final sample mount) /\
  maxCombo (final sample mount) <= hits (stats (final sample mount)).
Proof.
  assert (Hrun : run sample mount = Some (final sample mount))
    by (vm_compute; reflexivity).
  split; [exact Hrun|].
  destruct (score_and_streak_bounds sample (final sample mount) Hrun)
    as (_ & Hmh & _).
  exact Hmh.
Defined.

Lemma streak_closed_form es : forall s,
  forallb (fun e => negb (is_start e) && negb (is_miss e)) es = true ->
  combo s = maxCombo s ->
  let k := count is_hit es in
  combo (final es s) = combo s + k /\
  maxCombo (final es s) = combo s + k /\
  score (stats (final es s))
    = score (stats s) + 100 * k + 10 * combo s * k + 5 * k * (k - 1).
Proof.
  induction es as [|e es IH]; intros s Hok Hcm.
  - unfold count. simpl. repeat split; lia.
  - simpl in Hok. apply andb_true_iff in Hok as [He Hok].
    apply andb_true_iff in He as [Hst Hmi].
    apply negb_true_iff in Hst, Hmi.
    assert (Hcm' : combo (step e s) = maxCombo (step e s)).
    { rewrite step_combo, step_maxCombo.
      destruct e; try discriminate Hst; try discriminate Hmi; auto.
      destruct (Z.gtb_spec (combo s + 1) (maxCombo s)); lia. }
    specialize (IH (step e s) Hok Hcm'). cbv zeta in IH |- *.
    destruct IH as (Hc & Hm & Hs).
    change (final (e :: es) s) with (final es (step e s)).
    rewrite Hc, Hm, Hs, count_cons, step_stats, step_combo.
    pose proof (count_nonneg is_hit es) as Hk.
    destruct e; try discriminate Hst; try discriminate Hmi;
      cbn [is_hit score]; repeat split; try lia; nia.
Qed.

(** X6.  A session without a miss: after [k] hits, whatever timers fired
    in between, [combo] and [maxCombo] are [k] and the score is
    [100 * k + 5 * k * (k - 1)] (100 for the first hit, 110 for the
    second, and so on). *)
Theorem flawless_session_score s0 es :
  forallb (fun e => negb (is_start e) && negb (is_miss e)) es = true ->
  let k := count is_hit es in
  let s := final es (step StartClick s0) in
  combo s = k /\ maxCombo s = k /\ hits (stats s) = k /\
  misses (stats s) = 0 /\
  score (stats s) = 100 * k + 5 * k * (k - 1).
Proof.
  intros Hok. cbv zeta.
  assert (H0 : combo (step StartClick s0) = 0 /\
               maxCombo (step StartClick s0) = 0 /\
               stats (step StartClick s0) = mkStats 0 0 0 0).
  { rewrite step_combo, step_maxCombo, step_stats. auto. }
  destruct H0 as (Hc0 & Hm0 & Hs0).
  destruct (streak_closed_form es (step StartClick s0) Hok)
    as (Hc & Hm & Hs); [lia|].
  assert (Hns : forallb (fun e => negb (is_start e)) es = true).
  { rewrite forallb_forall in *. intros e He.
    specialize (Hok e He). now apply andb_true_iff in Hok as [? _]. }
  destruct (stats_count_clicks es (step StartClick s0) Hns) as [Hh Hmiss].
  assert (Hnomiss : count is_miss es = 0).
  { clear - Hok. induction es as [|e es IH]; [reflexivity|].
    simpl in Hok. apply andb_true_iff in Hok as [He Hok].
    apply andb_true_iff in He as [_ Hmi]. apply negb_true_iff in Hmi.
    rewrite count_cons, Hmi, (IH Hok). reflexivity. }
  rewrite Hc, Hm, Hs, Hh, Hmiss, Hc0, Hs0, Hnomiss. cbn [hits misses score].
  repeat split; lia.
Qed.

Lemma flawless_session_score_witness :
  forallb (fun e => negb (is_start e) && negb (is_miss e))
          (firstn 2 (tl sample)) = true /\
  score (stats (final (firstn 2 (tl sample)) (step StartClick mount)))
  = 100 * count is_hit (firstn 2 (tl sample))
    + 5 * count is_hit (firstn 2 (tl sample))
        * (count is_hit (firstn 2 (tl sample)) - 1).
Proof.
  assert (Hok : forallb (fun e => negb (is_start e) && negb (is_miss e))
                        (firstn 2 (tl sample)) = true) by reflexivity.
  split; [exact Hok|].
  destruct (flawless_session_score mount (firstn 2 (tl sample)) Hok)
    as (_ & _ & _ & _ & Hs).
  exact Hs.
Defined.

(** ** The accuracy as a percentage *)

Lemma sane_upto_100 :
  forallb (fun k => (fun h => forallb (fun k' => sane h (Z.of_nat k'))
                                      (seq 0 101)) (Z.of_nat k))
          (seq 0 101) = true.
Proof. vm_compute. reflexivity. Qed.

Lemma sane_100 hits misses :
  0 <= hits <= 100 -> 0 <= misses <= 100 -> sane hits misses = true.
Proof.
  intros Hh Hm.
  apply (forallb_upto (sane hits) 101); [|lia].
  apply (forallb_upto
           (fun h => forallb (fun k' => sane h (Z.of_nat k')) (seq 0 101))
           101 sane_upto_100); lia.
Qed.

(** X7.  With up to 100 hits and up to 100 misses on the counters, the
    [accuracy] the component shows is an integer from 0 to 100; it is 100
    exactly when there are hits and no miss, and 0 exactly when there is
    no hit. *)
Theorem accuracy_is_a_percentage es s :
  run es mount = Some s ->
  hits (stats s) <= 100 -> misses (stats s) <= 100 ->
  0 <= accuracy (stats s) <= 100 /\
  (accuracy (stats s) = 100 <-> 0 < hits (stats s) /\ misses (stats s) = 0) /\
  (accuracy (stats s) = 0 <-> hits (stats s) = 0).
Proof.
  intros Hrun Hh100 Hm100. reached Hrun Hr.
  destruct (stats_invariant s Hr) as (Hh & Hm & _ & _ & ->).
  pose proof (sane_100 (hits (stats s)) (misses (stats s))
                (conj Hh Hh100) (conj Hm Hm100)) as Hsane.
  unfold sane in Hsane. cbv zeta in Hsane.
  apply andb_true_iff in Hsane as [Hsane H0].
  apply andb_true_iff in Hsane as [Hsane H100].
  apply andb_true_iff in Hsane as [Hlo Hhi].
  apply Z.leb_le in Hlo, Hhi. apply eqb_prop in H0, H100.
  split; [lia|]. split.
  - rewrite <- Z.eqb_eq, H100, andb_true_iff, Z.ltb_lt, Z.eqb_eq. tauto.
  - rewrite <- Z.eqb_eq, H0, Z.eqb_eq. tauto.
Qed.

Lemma accuracy_is_a_percentage_witness :
  run sample mount = Some (final sample mount) /\
  hits (stats (final sample mount)) <= 100 /\
  misses (stats (final sample mount)) <= 100 /\
  0 <= accuracy (stats (final sample mount)) <= 100.
Proof.
  assert (Hrun : run sample mount = Some (final sample mount))
    by (vm_compute; reflexivity).
  assert (Hh : hits (stats (final sample mount)) <= 100)
    by (vm_compute; discriminate).
  assert (Hm : misses (stats (final sample mount)) <= 100)
    by (vm_compute; discriminate).
  split; [exact Hrun|]. split; [exact Hh|]. split; [exact Hm|].
  destruct (accuracy_is_a_percentage sample (final sample mount) Hrun Hh Hm)
    as (Hrange & _).
  exact Hrange.
Defined.

(** ** The screen flow and the clock *)

(** X8.  Whatever happens to the component, [gameState] only moves along
    the arrows menu -> playing -> ended -> menu or playing (or stays):
    nothing leads from menu to ended, from playing back to menu, or from
    playing to playing anew. *)
Theorem only_legal_transitions es s e :
  run es mount = Some s -> enabled e s = true ->
  legal (gameState s) (gameState (step e s)) = true.
Proof.
  intros Hrun He. reached Hrun Hr.
  destruct (timers_invariant s Hr) as (Hck & _).
  rewrite step_gameState.
  destruct e; cbn [enabled] in He;
    try (destruct (gameState s); reflexivity);
    try (destruct (gameState s); try discriminate He; reflexivity).
  rewrite Hck in He.
  destruct (gameState s); try discriminate He.
  destruct (timeLeft s <=? 1); reflexivity.
Qed.

Lemma only_legal_transitions_witness :
  run (firstn 3 finished) mount = Some (final (firstn 3 finished) mount) /\
  enabled EndClick (final (firstn 3 finished) mount) = true /\
  legal (gameState (final (firstn 3 finished) mount))
        (gameState (step EndClick (final (firstn 3 finished) mount))) = true.
Proof.
  assert (Hrun : run (firstn 3 finished) mount
                 = Some (final (firstn 3 finished) mount))
    by (vm_compute; reflexivity).
  assert (He : enabled EndClick (final (firstn 3 finished) mount) = true)
    by (vm_compute; reflexivity).
  split; [exact Hrun|]. split; [exact He|].
  exact (only_legal_transitions (firstn 3 finished)
           (final (firstn 3 finished) mount) EndClick Hrun He).
Defined.

(** How far a session has come after [n] ticks of its clock. *)
Lemma ticks_invariant es : forall s s' n,
  reachable s ->
  0 <= n <= 60 -> timeLeft s = 60 - n ->
  (n < 60 -> gameState s = playing) -> (n = 60 -> gameState s = ended) ->
  run es s = Some s' ->
  forallb in_session es = true ->
  let n' := n + count is_tick es in
  0 <= n' <= 60 /\ timeLeft s' = 60 - n' /\
  (n' < 60 -> gameState s' = playing) /\ (n' = 60 -> gameState s' = ended).
Proof.
  induction es as [|e es IH]; intros s s' n Hr Hn Htl Hp Hend Hrun Hin.
  - simpl in Hrun. inversion Hrun; subst s'. unfold count. simpl.
    rewrite Z.add_0_r. auto.
  - simpl in Hrun. destruct (enabled e s) eqn:He; [|discriminate].
    simpl in Hin. apply andb_true_iff in Hin as [Hine Hin].
    assert (Htick : e = ClockFire -> n < 60).
    { intros ->. cbn [enabled] in He.
      destruct (timers_invariant s Hr) as (Hck & _). rewrite Hck in He.
      destruct (Z.eq_dec n 60) as [E|E]; [|lia].
      rewrite (Hend E) in He. discriminate He. }
    rewrite count_cons. cbv zeta. rewrite Z.add_assoc.
    apply (IH (step e s) s' (n + (if is_tick e then 1 else 0)));
      try assumption; try (now constructor);
      rewrite ?step_timeLeft, ?step_gameState;
      destruct e; try discriminate Hine; cbn [is_tick];
      rewrite ?Z.add_0_r; auto; specialize (Htick eq_refl).
    + lia.
    + destruct (Z.leb_spec (timeLeft s) 1); lia.
    + intros Hlt. destruct (Z.leb_spec (timeLeft s) 1); [lia|].
      apply Hp. lia.
    + intros E. destruct (Z.leb_spec (timeLeft s) 1); [reflexivity|lia].
Qed.

(** X9.  A session that is neither ended by hand nor restarted lasts
    sixty ticks of its clock: after [n] ticks [timeLeft] is [60 - n], the
    session is still [playing] while [n < 60] and is [ended] at the
    sixtieth tick, after which the clock cannot tick again. *)
Theorem session_lasts_sixty_ticks es0 s0 es s :
  run es0 mount = Some s0 -> enabled StartClick s0 = true ->
  run es (step StartClick s0) = Some s ->
  forallb in_session es = true ->
  let n := count is_tick es in
  0 <= n <= 60 /\ timeLeft s = 60 - n /\
  (gameState s = playing <-> n < 60) /\ (gameState s = ended <-> n = 60).
Proof.
  intros Hrun0 He Hrun Hin. reached Hrun0 Hr0.
  assert (Hr : reachable (step StartClick s0)) by now constructor.
  destruct (ticks_invariant es (step StartClick s0) s 0 Hr)
    as (Hn & Htl & Hp & Hend); try assumption; try lia;
    rewrite ?step_timeLeft, ?step_gameState; try reflexivity; try lia.
  cbv zeta. rewrite Z.add_0_l in *.
  split; [exact Hn|]. split; [exact Htl|]. split; split; intros H.
  - destruct (Z.eq_dec (count is_tick es) 60) as [E|E]; [|lia].
    rewrite (Hend E) in H. discriminate H.
  - now apply Hp.
  - destruct (Z.eq_dec (count is_tick es) 60) as [E|E]; [exact E|].
    rewrite Hp in H by lia. discriminate H.
  - now apply Hend.
Qed.

Lemma session_lasts_sixty_ticks_witness :
  run [] mount = Some mount /\ enabled StartClick mount = true /\
  run (tl sample ++ [ClockFire]) (step StartClick mount)
  = Some (final (tl sample ++ [ClockFire]) (step StartClick mount)) /\
  forallb in_session (tl sample ++ [ClockFire]) = true /\
  timeLeft (final (tl sample ++ [ClockFire]) (step StartClick mount))
  = 60 - count is_tick (tl sample ++ [ClockFire]).
Proof.
  assert (H0 : run [] mount = Some mount) by reflexivity.
  assert (He : enabled StartClick mount = true) by reflexivity.
  assert (Hrun : run (tl sample ++ [ClockFire]) (step StartClick mount)
                 = Some (final (tl sample ++ [ClockFire])
                               (step StartClick mount)))
    by (vm_compute; reflexivity).
  assert (Hin : forallb in_session (tl sample ++ [ClockFire]) = true)
    by reflexivity.
  split; [exact H0|]. split; [exact He|]. split; [exact Hrun|].
  split; [exact Hin|].
  destruct (session_lasts_sixty_ticks [] mount (tl sample ++ [ClockFire])
              (final (tl sample ++ [ClockFire]) (step StartClick mount))
              H0 He Hrun Hin) as (_ & Htl & _).
  exact Htl.
Defined.

(** X10.  While playing, the spawn interval is armed with exactly
    [400 + 10 * timeLeft] milliseconds, between 410 and 1000: [timeLeft]
    is at least 1 in play, so the 400 ms floor of the formula is never
    what decides the period. *)
Theorem spawn_period_while_playing es s :
  run es mount = Some s -> gameState s = playing ->
  spawner s = Some (400 + 10 * timeLeft s) /\
  410 <= 400 + 10 * timeLeft s <= 1000 /\
  1000 - (60 - timeLeft s) * 10 > 400.
Proof.
  intros Hrun Hp. reached Hrun Hr.
  destruct (timers_invariant s Hr) as (_ & Hsp & _).
  destruct (time_invariant s Hr) as [Htl Hpl]. specialize (Hpl Hp).
  rewrite Hsp, Hp. cbn [GameState_eqb].
  unfold spawnInterval, JS.Math_max.
  destruct (Z.gtb_spec (1000 - (60 - timeLeft s) * 10) 400); [|lia].
  repeat split; try lia. f_equal. lia.
Qed.

Lemma spawn_period_while_playing_witness :
  run sample mount = Some (final sample mount) /\
  gameState (final sample mount) = playing /\
  spawner (final sample mount) = Some (400 + 10 * timeLeft (final sample mount)).
Proof.
  assert (Hrun : run sample mount = Some (final sample mount))
    by (vm_compute; reflexivity).
  assert (Hp : gameState (final sample mount) = playing)
    by (vm_compute; reflexivity).
  split; [exact Hrun|]. split; [exact Hp|].
  destruct (spawn_period_while_playing sample (final sample mount) Hrun Hp)
    as (Hsp & _).
  exact Hsp.
Defined.

(** ** The end of a session *)

(** X11.  Whenever a session ends, by the End button or by the clock, the
    collection is emptied and the results stay: [stats], [combo],
    [maxCombo] and the id counter are what they were in the last playing
    state. *)
Theorem results_survive_the_end s e :
  gameState s = playing -> gameState (step e s) = ended ->
  targets (step e s) = [] /\
  stats (step e s) = stats s /\
  combo (step e s) = combo s /\
  maxCombo (step e s) = maxCombo s /\
  targetIdRef (step e s) = targetIdRef s.
Proof.
  intros Hp Hend. rewrite step_gameState in Hend.
  rewrite step_stats, step_combo, step_maxCombo. unfold step.
  rewrite (proj1 (proj2 (commit_frame _ _))).
  rewrite (proj2 (proj2 (proj2 (proj2 (proj2 (proj2 (commit_frame _ _))))))).
  destruct e; try discriminate Hend;
    try (rewrite Hp in Hend; discriminate Hend); cbn [handler].
  - repeat split.
  - unfold clockTick. destruct (timeLeft s <=? 1).
    + repeat split.
    + rewrite Hp in Hend. discriminate Hend.
Qed.

Lemma results_survive_the_end_witness :
  gameState (final (firstn 3 finished) mount) = playing /\
  gameState (step EndClick (final (firstn 3 finished) mount)) = ended /\
  stats (step EndClick (final (firstn 3 finished) mount))
  = stats (final (firstn 3 finished) mount).
Proof.
  assert (Hp : gameState (final (firstn 3 finished) mount) = playing)
    by (vm_compute; reflexivity).
  assert (He : gameState (step EndClick (final (firstn 3 finished) mount))
               = ended) by (vm_compute; reflexivity).
  split; [exact Hp|]. split; [exact He|].
  destruct (results_survive_the_end (final (firstn 3 finished) mount)
              EndClick Hp He) as (_ & Hst & _).
  exact Hst.
Defined.

(** X12.  Once a session is over, its results are frozen until the next
    start: whatever happens in between (Main Menu, opening timeouts still
    firing), [stats], [combo], [maxCombo] and [timeLeft] keep their final
    values and the component does not get back to [playing]. *)
Theorem results_frozen_until_next_start es0 s es s' :
  run es0 mount = Some s -> gameState s <> playing ->
  run es s = Some s' ->
  forallb (fun e => negb (is_start e)) es = true ->
  stats s' = stats s /\ combo s' = combo s /\ maxCombo s' = maxCombo s /\
  timeLeft s' = timeLeft s /\ gameState s' <> playing.
Proof.
  intros Hrun0 Hnp Hrun Hns. reached Hrun0 Hr. clear Hrun0.
  revert s Hr Hnp Hrun Hns.
  induction es as [|e es IH]; intros s Hr Hnp Hrun Hns.
  - simpl in Hrun. inversion Hrun; subst. auto.
  - simpl in Hrun. destruct (enabled e s) eqn:He; [|discriminate].
    simpl in Hns. apply andb_true_iff in Hns as [Hst Hns].
    apply negb_true_iff in Hst.
    assert (Hquiet : stats (step e s) = stats s /\
                     combo (step e s) = combo s /\
                     maxCombo (step e s) = maxCombo s /\
                     timeLeft (step e s) = timeLeft s /\
                     gameState (step e s) <> playing).
    { destruct (timers_invariant s Hr) as (Hck & _).
      rewrite step_stats, step_combo, step_maxCombo, step_timeLeft,
        step_gameState.
      destruct e; try discriminate Hst; cbn [enabled] in He;
        try (repeat split; try reflexivity; try assumption; discriminate);
        try (destruct (gameState s); try discriminate He;
             now contradiction Hnp).
      rewrite Hck in He.
      destruct (gameState s); try discriminate He. now contradiction Hnp. }
    destruct Hquiet as (H1 & H2 & H3 & H4 & H5).
    destruct (IH (step e s)) as (I1 & I2 & I3 & I4 & I5);
      try assumption; [now constructor|].
    rewrite I1, I2, I3, I4, H1, H2, H3, H4. auto.
Qed.

Lemma results_frozen_until_next_start_witness :
  run finished mount = Some (final finished mount) /\
  gameState (final finished mount) <> playing /\
  run [TimeoutFire 0 (draw_at 310); MenuClick] (final finished mount)
  = Some (final [TimeoutFire 0 (draw_at 310); MenuClick]
                (final finished mount)) /\
  forallb (fun e => negb (is_start e))
          [TimeoutFire 0 (draw_at 310); MenuClick] = true /\
  stats (final [TimeoutFire 0 (draw_at 310); MenuClick]
               (final finished mount))
  = stats (final finished mount).
Proof.
  assert (H0 : run finished mount = Some (final finished mount))
    by (vm_compute; reflexivity).
  assert (Hnp : gameState (final finished mount) <> playing)
    by (vm_compute; discriminate).
  assert (Hrun : run [TimeoutFire 0 (draw_at 310); MenuClick]
                     (final finished mount)
                 = Some (final [TimeoutFire 0 (draw_at 310); MenuClick]
                               (final finished mount)))
    by (vm_compute; reflexivity).
  assert (Hns : forallb (fun e => negb (is_start e))
                        [TimeoutFire 0 (draw_at 310); MenuClick] = true)
    by reflexivity.
  split; [exact H0|]. split; [exact Hnp|]. split; [exact Hrun|].
  split; [exact Hns|].
  destruct (results_frozen_until_next_start finished (final finished mount)
              [TimeoutFire 0 (draw_at 310); MenuClick]
              (final [TimeoutFire 0 (draw_at 310); MenuClick]
                     (final finished mount)) H0 Hnp Hrun Hns)
    as (Hst & _).
  exact Hst.
Defined.

(** ** Expiry ticks and the other events *)

Ltac by_fields :=
  unfold setTargets, setTargetIdRef, setPendingSpawns;
  cbn [gameState targets stats timeLeft combo maxCombo targetIdRef clock
       spawner watcher pendingSpawns].

Lemma filter_filter_weaker {A} (p q : A -> bool) (l : list A) :
  (forall a, q a = true -> p a = true) ->
  filter q (filter p l) = filter q l.
Proof.
  intros Hpq. induction l as [|a l IH]; simpl; [reflexivity|].
  destruct (p a) eqn:Hp; simpl.
  - destruct (q a); now rewrite IH.
  - destruct (q a) eqn:Hq; [|exact IH].
    rewrite (Hpq a Hq) in Hp. discriminate Hp.
Qed.

Lemma filter_swap {A} (p q : A -> bool) (l : list A) :
  filter p (filter q l) = filter q (filter p l).
Proof.
  induction l as [|a l IH]; simpl; [reflexivity|].
  destruct (p a) eqn:Hp, (q a) eqn:Hq; simpl; rewrite ?Hp, ?Hq, IH;
    reflexivity.
Qed.

(** X13.  A later expiry tick makes an earlier one redundant: ticking at
    [now1] and then at [now2 >= now1] leaves the component exactly as a
    single tick at [now2] does; in particular a tick repeated at the same
    time changes nothing. *)
Theorem later_expiry_tick_subsumes_earlier s now1 now2 :
  now1 <= now2 ->
  step (ExpiryFire now2) (step (ExpiryFire now1) s)
  = step (ExpiryFire now2) s.
Proof.
  intros Hle. rewrite !step_quiet by reflexivity. cbn [handler].
  unfold expire. destruct s as [g ts st tm c m tid ck sp w p].
  by_fields.
  f_equal. apply filter_filter_weaker.
  intros t Ht. apply Z.ltb_lt in Ht. apply Z.ltb_lt. lia.
Qed.

Lemma later_expiry_tick_subsumes_earlier_witness :
  3004 <= 3800 /\
  step (ExpiryFire 3800) (step (ExpiryFire 3004) (final (firstn 5 sample) mount))
  = step (ExpiryFire 3800) (final (firstn 5 sample) mount).
Proof.
  assert (Hle : 3004 <= 3800) by (vm_compute; discriminate).
  split; [exact Hle|].
  exact (later_expiry_tick_subsumes_earlier
           (final (firstn 5 sample) mount) 3004 3800 Hle).
Defined.

(** The effects do not look at the collection. *)
Lemma commit_setTargets f prev next :
  commit (setTargets f prev) (setTargets f next)
  = setTargets f (commit prev next).
Proof.
  unfold commit, initialSpawnEffect, expiryEffect, clockEffect.
  destruct prev as [g ? ? tl0 ? ? ? ? ? ? ?],
           next as [g' ? ? tl' ? ? ? ? ? ? ?].
  simpl. destruct g, g'; destruct (tl0 =? tl'); reflexivity.
Qed.

Lemma handler_expire_swap time e s :
  swaps_with_expiry time e = true ->
  handler e (expire time s) = expire time (handler e s).
Proof.
  intros Hsw.
  destruct e; try discriminate Hsw; cbn [handler swaps_with_expiry] in *;
    unfold expire.
  - rewrite !hitTarget_fields.
    destruct s as [g ts st tm c m tid ck sp w p].
    by_fields.
    f_equal. apply filter_swap.
  - destruct s; reflexivity.
  - unfold clockTick. destruct s as [g ts st tm c m tid ck sp w p].
    by_fields. destruct (tm <=? 1); reflexivity.
  - unfold spawnTarget. destruct (rect d); [|reflexivity].
    destruct s as [g ts st tm c m tid ck sp w p].
    by_fields.
    f_equal. rewrite filter_app. cbn [filter createdAt].
    now rewrite Hsw.
  - destruct s as [g ts st tm c m tid ck sp w p].
    by_fields.
    f_equal. apply filter_swap.
  - unfold spawnTarget. destruct (rect d); [|destruct s; reflexivity].
    destruct s as [g ts st tm c m tid ck sp w p].
    by_fields.
    f_equal. rewrite filter_app. cbn [filter createdAt].
    now rewrite Hsw.
Qed.

(** X14.  The order in which an expiry tick and another event of the
    session are handled does not matter: a hit, a miss, a clock tick,
    another expiry tick, or a spawn whose target is less than three
    seconds old at the tick, followed by the tick, gives the same state as
    the tick followed by that event. *)
Theorem expiry_tick_swaps_with_session_events s time e :
  swaps_with_expiry time e = true ->
  step (ExpiryFire time) (step e s) = step e (step (ExpiryFire time) s).
Proof.
  intros Hsw.
  rewrite !(step_quiet (ExpiryFire time)) by reflexivity. cbn [handler].
  unfold step at 1 2. rewrite handler_expire_swap by exact Hsw.
  unfold expire. symmetry. apply commit_setTargets.
Qed.

Lemma expiry_tick_swaps_with_session_events_witness :
  swaps_with_expiry 3004 (SpawnFire (draw_at 700)) = true /\
  step (ExpiryFire 3004)
       (step (SpawnFire (draw_at 700)) (final (firstn 4 sample) mount))
  = step (SpawnFire (draw_at 700))
         (step (ExpiryFire 3004) (final (firstn 4 sample) mount)).
Proof.
  assert (Hsw : swaps_with_expiry 3004 (SpawnFire (draw_at 700)) = true)
    by (vm_compute; reflexivity).
  split; [exact Hsw|].
  exact (expiry_tick_swaps_with_session_events
           (final (firstn 4 sample) mount) 3004 (SpawnFire (draw_at 700)) Hsw).
Defined.

(** ** The opening timeouts *)

Lemma commit_pendingSpawns prev next :
  pendingSpawns (commit prev next) =
  if negb (GameState_eqb (gameState prev) (gameState next))
     && GameState_eqb (gameState next) playing
  then pendingSpawns next ++ [0; 300; 600]
  else pendingSpawns next.
Proof.
  unfold commit, initialSpawnEffect, expiryEffect, clockEffect.
  destruct prev as [g ? ? tl0 ? ? ? ? ? ? ?],
           next as [g' ? ? tl' ? ? ? ? ? ? p'].
  simpl. destruct g, g'; destruct (tl0 =? tl'); simpl;
    rewrite <- ?app_assoc; reflexivity.
Qed.

Lemma handler_pendingSpawns e s :
  pendingSpawns (handler e s) =
  match e with
  | TimeoutFire k _ => remove_nth k (pendingSpawns s)
  | _ => pendingSpawns s
  end.
Proof.
  destruct e; cbn [handler]; try reflexivity.
  - now rewrite hitTarget_fields.
  - unfold clockTick. destruct (timeLeft s <=? 1); reflexivity.
  - unfold spawnTarget. destruct (rect d); reflexivity.
  - unfold spawnTarget. destruct (rect d); reflexivity.
Qed.

Lemma length_remove_nth {A} (l : list A) : forall k,
  (k < length l)%nat -> S (length (remove_nth k l)) = length l.
Proof.
  induction l as [|a l IH]; intros k Hk; simpl in *; [lia|].
  destruct k as [|k]; [reflexivity|].
  simpl. f_equal. apply IH. lia.
Qed.

Lemma pending_accounting es : forall s s',
  run es s = Some s' ->
  Z.of_nat (length (pendingSpawns s')) + count is_timeout es
  = Z.of_nat (length (pendingSpawns s)) + 3 * count is_start es.
Proof.
  induction es as [|e es IH]; intros s s' Hrun.
  - simpl in Hrun. inversion Hrun; subst. unfold count. simpl. lia.
  - simpl in Hrun. destruct (enabled e s) eqn:He; [|discriminate].
    specialize (IH (step e s) s' Hrun).
    rewrite !count_cons.
    assert (Hstep : Z.of_nat (length (pendingSpawns (step e s)))
                    + (if is_timeout e then 1 else 0)
                    = Z.of_nat (length (pendingSpawns s))
                      + 3 * (if is_start e then 1 else 0)).
    { assert (Hg : gameState (handler e s) = gameState (step e s))
        by (unfold step; symmetry; apply commit_frame).
      unfold step at 1.
      rewrite commit_pendingSpawns, handler_pendingSpawns, Hg, step_gameState.
      destruct e; cbn [enabled is_timeout is_start] in *.
      - destruct (gameState s); try discriminate He;
          cbn [GameState_eqb negb andb]; rewrite length_app; simpl length; lia.
      - destruct (gameState s); try discriminate He. cbn. lia.
      - destruct (gameState s); try discriminate He. cbn. lia.
      - destruct (gameState s); cbn; lia.
      - destruct (gameState s); cbn; lia.
      - destruct (timeLeft s <=? 1); destruct (gameState s); cbn; lia.
      - destruct (gameState s); cbn; lia.
      - destruct (gameState s); cbn; lia.
      - apply Nat.ltb_lt in He.
        pose proof (length_remove_nth (pendingSpawns s) k He) as Hlen.
        destruct (gameState s); cbn [GameState_eqb negb andb]; lia. }
    lia.
Qed.

(** X15.  Opening timeouts are scheduled three per start and by nothing
    else, and each firing uses one up: after any run from the mounted
    component, the timeouts still pending plus those that have fired are
    three times the number of starts. *)
Theorem three_opening_timeouts_per_start es s :
  run es mount = Some s ->
  Z.of_nat (length (pendingSpawns s)) + count is_timeout es
  = 3 * count is_start es.
Proof.
  intros Hrun. rewrite (pending_accounting es mount s Hrun). reflexivity.
Qed.

Lemma three_opening_timeouts_per_start_witness :
  run abandoned mount = Some (final abandoned mount) /\
  Z.of_nat (length (pendingSpawns (final abandoned mount)))
  + count is_timeout abandoned
  = 3 * count is_start abandoned.
Proof.
  assert (Hrun : run abandoned mount = Some (final abandoned mount))
    by (vm_compute; reflexivity).
  split; [exact Hrun|].
  exact (three_opening_timeouts_per_start abandoned
           (final abandoned mount) Hrun).
Defined.

(** ** How clicks move the accuracy *)

Lemma steady_upto_100 :
  forallb (fun k => (fun h => forallb (fun k' => steady h (Z.of_nat k'))
                                      (seq 0 101)) (Z.of_nat k))
          (seq 0 101) = true.
Proof. vm_compute. reflexivity. Qed.

Lemma click_accuracy s :
  0 <= hits (stats s) -> 0 <= misses (stats s) ->
  (forall targetId,
     accuracy (stats (step (TargetClick targetId) s))
     = js_accuracy (hits (stats s) + 1) (misses (stats s))) /\
  accuracy (stats (step AreaClick s))
  = js_accuracy (hits (stats s)) (misses (stats s) + 1).
Proof.
  intros Hh Hm. split; [intros targetId|]; rewrite step_stats;
    reflexivity.
Qed.

(** X16.  With up to 100 hits and up to 100 misses on the counters, a
    hit never lowers the [accuracy] shown and a miss never raises it. *)
Theorem clicks_move_accuracy_one_way es s :
  run es mount = Some s ->
  hits (stats s) <= 100 -> misses (stats s) <= 100 ->
  (forall targetId,
     accuracy (stats s) <= accuracy (stats (step (TargetClick targetId) s))) /\
  accuracy (stats (step AreaClick s)) <= accuracy (stats s).
Proof.
  intros Hrun Hh100 Hm100. reached Hrun Hr.
  destruct (stats_invariant s Hr) as (Hh & Hm & _ & _ & Ha).
  destruct (click_accuracy s Hh Hm) as [Hhit Hmiss].
  assert (Hst : steady (hits (stats s)) (misses (stats s)) = true).
  { apply (forallb_upto (steady (hits (stats s))) 101); [|lia].
    apply (forallb_upto
             (fun h => forallb (fun k' => steady h (Z.of_nat k')) (seq 0 101))
             101 steady_upto_100); lia. }
  unfold steady in Hst. apply andb_true_iff in Hst as [H1 H2].
  apply Z.leb_le in H1, H2.
  split.
  - intros targetId. rewrite Hhit, Ha. exact H1.
  - rewrite Hmiss, Ha. exact H2.
Qed.

Lemma clicks_move_accuracy_one_way_witness :
  run sample mount = Some (final sample mount) /\
  hits (stats (final sample mount)) <= 100 /\
  misses (stats (final sample mount)) <= 100 /\
  accuracy (stats (step AreaClick (final sample mount)))
  <= accuracy (stats (final sample mount)).
Proof.
  assert (Hrun : run sample mount = Some (final sample mount))
    by (vm_compute; reflexivity).
  assert (Hh : hits (stats (final sample mount)) <= 100)
    by (vm_compute; discriminate).
  assert (Hm : misses (stats (final sample mount)) <= 100)
    by (vm_compute; discriminate).
  split; [exact Hrun|]. split; [exact Hh|]. split; [exact Hm|].
  destruct (clicks_move_accuracy_one_way sample (final sample mount)
              Hrun Hh Hm) as (_ & Hmiss).
  exact Hmiss.
Defined.
